(** * Annotate: text fitting and rendering onto images

    A shallow embedding of the Go package [Annotate] (mansoor-s/Annotate):
    the word-wrapping and font-size search of [calculateSize], the metrics
    helper [wordWidth], the renderer [drawLines], and the configuration
    calls of [Context].

    Conventions.
    - Go's [int32] is a [Z] with the wrap-around written out ([Int32.wrap]).
    - Go's [string] is a sequence of bytes: [string] of 8-bit [ascii].
    - Go's [float64] is Rocq's primitive binary64 [float].
    - The external collaborators (the parsed TrueType font, the image codecs,
      the compositing and rasterising calls) are records and section
      variables: the package only calls them. *)

From Stdlib Require Import ZArith Lia List String Ascii Bool.
From Stdlib Require Import Floats.
From stdpp Require Import base option gmap.
Import ListNotations.

Local Open Scope Z_scope.
Local Open Scope list_scope.

(** ** Machine integers *)

Module Int32.

Definition min_int : Z := - 2 ^ 31.
Definition max_int : Z := 2 ^ 31 - 1.

(** The value an [int32] holds after an operation whose mathematical
    result is [z]. *)
Definition wrap (z : Z) : Z := (z + 2 ^ 31) mod 2 ^ 32 - 2 ^ 31.

Definition in_range (z : Z) : Prop := min_int <= z <= max_int.

Definition add (a b : Z) : Z := wrap (a + b).
Definition sub (a b : Z) : Z := wrap (a - b).

End Int32.

(** ** Floating point conversions used by the layout *)

Module Float64.

(** [float64(n)] for an [int32] [n]: exact, since |n| <= 2^31 < 2^53. *)
Definition of_int32 (n : Z) : float :=
  if n <? 0
  then PrimFloat.opp (PrimFloat.of_uint63 (Uint63.of_Z (- n)))
  else PrimFloat.of_uint63 (Uint63.of_Z n).

(** The integer part of a finite float, rounded toward zero. *)
Definition trunc (x : float) : option Z :=
  match Prim2SF x with
  | S754_zero _ => Some 0
  | S754_finite s m e =>
      let a := Z.shiftl (Z.pos m) e in Some (if s then - a else a)
  | S754_infinity _ | S754_nan => None
  end.

(** The largest integer not above a finite float. *)
Definition floor (x : float) : option Z :=
  match Prim2SF x with
  | S754_zero _ => Some 0
  | S754_finite s m e =>
      let a := Z.shiftl (Z.pos m) e in
      Some (if s then - (if Z.shiftl a (- e) =? Z.pos m then a else a + 1)
            else a)
  | S754_infinity _ | S754_nan => None
  end.

(** [int32(x)]: Go truncates toward zero.  When the value is not
    representable the result is implementation-dependent; the amd64
    compiler's CVTTSD2SL yields the smallest [int32], which is what is
    modelled. *)
Definition to_int32 (x : float) : Z :=
  match trunc x with
  | Some z => if (Int32.min_int <=? z) && (z <=? Int32.max_int) then z
              else Int32.min_int
  | None => Int32.min_int
  end.

End Float64.

(** ** The [strings] functions the package calls *)

Module Strings.

(** [strings.Split(s, sep)] for a one-byte separator: the substrings
    between the separators, in order; never empty. *)
Fixpoint Split (s : string) (sep : ascii) : list string :=
  match s with
  | EmptyString => [EmptyString]
  | String ch rest =>
      if Ascii.eqb ch sep then EmptyString :: Split rest sep
      else match Split rest sep with
           | [] => [String ch EmptyString]
           | w :: ws => String ch w :: ws
           end
  end.

(** [strings.Join(elems, sep)]. *)
Fixpoint Join (elems : list string) (sep : string) : string :=
  match elems with
  | [] => EmptyString
  | [w] => w
  | w :: ws => String.append w (String.append sep (Join ws sep))
  end.

End Strings.

Definition space : ascii := " "%char.
Definition newline : ascii := Ascii.ascii_of_nat 10.

(** ** Data model *)

(** [type Rectangle struct { X, Y, Width, Height int32 }] *)
Record Rectangle : Type := mkRectangle {
  X : Z;
  Y : Z;
  Width : Z;
  Height : Z
}.

(** [type Color struct { R, G, B, A uint32 }] *)
Record Color : Type := mkColor { R : Z; G : Z; B : Z; A : Z }.

(** [type Line struct { Words; XPos; YPos; currWidth; BaseToBaseHeight }] *)
Record Line : Type := mkLine {
  Words : list string;
  XPos : Z;
  YPos : Z;
  currWidth : Z;
  BaseToBaseHeight : Z
}.

(** [&Line{}]: the zero value. *)
Definition newLine : Line := mkLine [] 0 0 0 0.

(** The part of [*truetype.Font] the package calls: the glyph index of a
    rune, the scaled advance width of a glyph ([HMetric(scale, i).AdvanceWidth])
    and the scaled kerning of a glyph pair, all [int32]-valued. *)
Record Font : Type := mkFont {
  Index : Z -> Z;
  AdvanceWidth : Z -> Z -> Z;
  Kerning : Z -> Z -> Z -> Z
}.

(** [rune(word[i])]: the byte's value as a code point. *)
Definition rune (ch : ascii) : Z := Z.of_N (N_of_ascii ch).

(** ** The fitting engine *)

Section Fitting.

(** The fields of the receiver [c *Context] the fitting engine reads. *)
Variable font : Font.
Variable lineHeight : float.
Variable maxFontSize : Z.

(** [int32(c.lineHeight * float64(fontSize))] *)
Definition linePad (fontSize : Z) : Z :=
  Float64.to_int32 (PrimFloat.mul lineHeight (Float64.of_int32 fontSize)).

(** The loop of [wordWidth], from position [i] on with [width] so far. *)
Fixpoint wordWidth_from (word : string) (fontSize width : Z) : Z :=
  match word with
  | EmptyString => width
  | String ch rest =>
      let index := Index font (rune ch) in
      let width := Int32.add width (AdvanceWidth font fontSize index) in
      let width :=
        match rest with
        | EmptyString => width
        | String ch2 _ =>
            Int32.add width (Kerning font fontSize index (Index font (rune ch2)))
        end in
      wordWidth_from rest fontSize width
  end.

(** [func (c *Context) wordWidth(word string, fontSize int32) int32] *)
Definition wordWidth (word : string) (fontSize : Z) : Z :=
  wordWidth_from word fontSize 0.

Section Layout.

Variable boundingBox : Rectangle.
Variable fontSize : Z.

Definition spaceWidth : Z := wordWidth (String space EmptyString) fontSize.

(** [currLine.Words = append(currLine.Words, word);
     currLine.currWidth += spaceWidth + wordWidth] *)
Definition addWord (currLine : Line) (word : string) (width : Z) : Line :=
  mkLine (Words currLine ++ [word]) (XPos currLine) (YPos currLine)
         (Int32.add (currWidth currLine) (Int32.add spaceWidth width))
         (BaseToBaseHeight currLine).

(** The inner loop over the words of one hard line.  [lines] holds every
    line before the current one and [currLine] is the last element of the
    slice, the one the pointer [currLine] designates. *)
Fixpoint wrapWords (words : list string) (lines : list Line) (currLine : Line)
  : list Line :=
  match words with
  | [] => lines ++ [currLine]
  | word :: rest =>
      let width := wordWidth word fontSize in
      if Width boundingBox
           <? Int32.add (Int32.add width (currWidth currLine)) spaceWidth
      then wrapWords rest (lines ++ [currLine]) (addWord newLine word width)
      else wrapWords rest lines (addWord currLine word width)
  end.

(** The outer loop over the hard lines: each one appends a fresh line. *)
Fixpoint wrapHardLines (hardLines : list string) (lines : list Line)
  : list Line :=
  match hardLines with
  | [] => lines
  | hardLine :: rest =>
      wrapHardLines rest (wrapWords (Strings.Split hardLine space) lines newLine)
  end.

(** The wrapping phase of [calculateSize] (source lines 216-237). *)
Definition wrapText (text : string) : list Line :=
  wrapHardLines (Strings.Split text newline) [].

(** One iteration of the positioning loop for a line that is not the
    first: [prevY] is [lines[i-1].YPos], already updated. *)
Definition placeNext (prevY : Z) (line : Line) : Line :=
  let overHeadSpace := Int32.add (linePad fontSize) fontSize in
  mkLine (Words line)
         (Int32.add (XPos line) (X boundingBox))
         (Int32.add (YPos line) (Int32.add prevY overHeadSpace))
         (currWidth line)
         overHeadSpace.

(** The iteration for [i == 0]. *)
Definition placeFirst (line : Line) : Line :=
  mkLine (Words line)
         (Int32.add (XPos line) (X boundingBox))
         (Int32.add (YPos line) (Y boundingBox))
         (currWidth line)
         fontSize.

(** The positioning loop from index [i > 0] on; returns the lines with
    their positions and the accumulated [totalHeight]. *)
Fixpoint placeRest (prevY : Z) (lines : list Line) (totalHeight : Z)
  : list Line * Z :=
  match lines with
  | [] => ([], totalHeight)
  | line :: rest =>
      let line' := placeNext prevY line in
      let '(rest', total) :=
        placeRest (YPos line') rest
                  (Int32.add totalHeight (BaseToBaseHeight line')) in
      (line' :: rest', total)
  end.

(** The positioning phase (source lines 239-254). *)
Definition placeLines (lines : list Line) : list Line * Z :=
  match lines with
  | [] => ([], 0)
  | line :: rest =>
      let line' := placeFirst line in
      let '(rest', total) :=
        placeRest (YPos line') rest (Int32.add 0 (BaseToBaseHeight line')) in
      (line' :: rest', total)
  end.

(** The layout a call of [calculateSize] computes before it decides
    (source lines 216-256): the positioned lines and [totalHeight],
    bottom padding included. *)
Definition layout (text : string) : list Line * Z :=
  let '(lines, totalHeight) := placeLines (wrapText text) in
  (lines, Int32.add totalHeight (linePad fontSize)).

End Layout.

(** [func larger(a, b int32) int32] *)
Definition larger (a b : Z) : Z := if b <=? a then a else b.

(** [int32(math.Floor(float64(n)/2 + 0.5))] for an [int32] [n]: the
    division by two, the addition of one half and the floor are exact on
    these values, so the result is the integer [floor((n + 1) / 2)]. *)
Definition halfRounded (n : Z) : Z := (n + 1) / 2.

(** [math.Abs(float64(a - b)) == 1], the subtraction being [int32]'s. *)
Definition adjacent (a b : Z) : bool := Z.abs (Int32.sub a b) =? 1.

(** What one call of [calculateSize] does after its layout: return, or
    call itself with new arguments. *)
Inductive decision : Type :=
| Return (ok : bool) (lines : list Line) (size : Z)
| Recurse (newFontSize attempt lastFit : Z).

(** The body of [calculateSize] up to the recursive calls. *)
Definition calculateSize_body (text : string) (boundingBox : Rectangle)
    (fontSize attempt lastFit : Z) : decision :=
  let '(lines, totalHeight) := layout boundingBox fontSize text in
  let attempt := Int32.add attempt 1 in
  if (attempt =? 0) && (totalHeight <=? Height boundingBox)
  then Return true lines fontSize
  else if totalHeight <=? Height boundingBox
  then
    if fontSize =? lastFit then Return true lines fontSize
    else if adjacent fontSize lastFit
    then Return true lines (larger lastFit fontSize)
    else Recurse (halfRounded (Int32.add fontSize maxFontSize)) attempt fontSize
  else
    if adjacent fontSize lastFit
    then Return true lines (larger lastFit fontSize)
    else Recurse (halfRounded (Int32.add fontSize lastFit)) attempt lastFit.

(** [func (c *Context) calculateSize(text, boundingBox, fontSize, attempt,
    lastFit) (bool, []*Line, int32)], with the depth of the recursion
    bounded by [fuel]: [None] when [fuel] calls do not reach a return. *)
Fixpoint calculateSize (fuel : nat) (text : string) (boundingBox : Rectangle)
    (fontSize attempt lastFit : Z) : option (bool * list Line * Z) :=
  match fuel with
  | O => None
  | S fuel' =>
      match calculateSize_body text boundingBox fontSize attempt lastFit with
      | Return ok lines size => Some (ok, lines, size)
      | Recurse newFontSize attempt' lastFit' =>
          calculateSize fuel' text boundingBox newFontSize attempt' lastFit'
      end
  end.

(** The number of calls of [calculateSize] (layout probes) a run makes,
    the first one included. *)
Fixpoint probes (fuel : nat) (text : string) (boundingBox : Rectangle)
    (fontSize attempt lastFit : Z) : option nat :=
  match fuel with
  | O => None
  | S fuel' =>
      match calculateSize_body text boundingBox fontSize attempt lastFit with
      | Return _ _ _ => Some 1%nat
      | Recurse newFontSize attempt' lastFit' =>
          option_map S
            (probes fuel' text boundingBox newFontSize attempt' lastFit')
      end
  end.

(** The search [WriteText] starts:
    [c.calculateSize(text, boundingBox, c.maxFontSize, -1, 0)]. *)
Definition findSize (fuel : nat) (text : string) (boundingBox : Rectangle)
  : option (bool * list Line * Z) :=
  calculateSize fuel text boundingBox maxFontSize (-1) 0.

End Fitting.

(** ** Paths *)

Module Filepath.

(** The loop of [filepath.Ext] over a suffix of the path, from its end
    backwards: [Some r] when the loop stopped inside the suffix (at a dot,
    returning [r], or at a separator, returning the empty string), [None]
    when it ran through the suffix. *)
Fixpoint scan (path : string) : option string :=
  match path with
  | EmptyString => None
  | String ch rest =>
      match scan rest with
      | Some r => Some r
      | None =>
          if Ascii.eqb ch "."%char then Some (String ch rest)
          else if Ascii.eqb ch "/"%char then Some EmptyString
          else None
      end
  end.

(** [filepath.Ext(path)] (Unix separators): the suffix beginning at the
    final dot of the final element of [path], empty if there is none. *)
Definition Ext (path : string) : string :=
  match scan path with
  | Some r => r
  | None => EmptyString
  end.

End Filepath.

(** ** Errors *)

Section Errors.

(** Errors of the collaborators (file system, codecs, rasteriser). *)
Variable ExtError : Type.

(** The values of Go's [error] the package returns. *)
Inductive error : Type :=
| UnsupportedError (f : string)
| External (e : ExtError).

(** [func (f UnsupportedError) Error() string] *)
Definition UnsupportedError_Error (f : string) : string :=
  String.append "Image format not supported: " f.

End Errors.

Arguments UnsupportedError {ExtError} f.
Arguments External {ExtError} e.

(** What a call does: return, panic (a nil dereference), or exhaust the
    recursion budget of the size search. *)
Inductive exec (T : Type) : Type :=
| Returns (r : T)
| Panics
| OutOfFuel.

Arguments Returns {T} r.
Arguments Panics {T}.
Arguments OutOfFuel {T}.

Definition exec_bind {T U : Type} (m : exec T) (k : T -> exec U) : exec U :=
  match m with
  | Returns r => k r
  | Panics => Panics
  | OutOfFuel => OutOfFuel
  end.

(** Addresses of image buffers. *)
Definition loc : Type := nat.

(** [freetype.FullHinting] and [freetype.NoHinting]. *)
Inductive Hinting : Type := NoHinting | FullHinting.

(** ** The context and the renderer *)

Section Rendering.

(** Contents of an image, [image.Rectangle], files and external errors. *)
Variables (Image ImgRect File ExtError : Type).

(** [img.Bounds()], [image.NewRGBA(r)], [image.NewUniform(c)]. *)
Variable Bounds : Image -> ImgRect.
Variable NewRGBA : ImgRect -> Image.
Variable NewUniform : Color -> Image.

(** [draw.Draw(dst, r, src, image.ZP, 0)]: the contents of [dst] after the
    call, from its contents before, [r] and the contents of [src]. *)
Variable Draw : Image -> ImgRect -> Image -> Image.

(** [os.Open], [png.Decode], [jpeg.Decode], [ioutil.ReadFile],
    [freetype.ParseFont] and [strings.ToLower]. *)
Variable os_Open : string -> File + ExtError.
Variable png_Decode : File -> Image + ExtError.
Variable jpeg_Decode : File -> Image + ExtError.
Variable ioutil_ReadFile : string -> string + ExtError.
Variable freetype_ParseFont : string -> option Font * option ExtError.
Variable strings_ToLower : string -> string.

(** The settings of a [*freetype.Context] that [drawLines] makes. *)
Record FreetypeContext : Type := mkFreetypeContext {
  ftFont : option Font;
  ftDPI : float;
  ftSrc : option Image;
  ftDst : loc;
  ftHinting : Hinting;
  ftFontSize : float;
  ftClip : ImgRect
}.

(** [imageContext.DrawString(s, raster.Point{X, Y})]: the contents of the
    destination after the call, from its contents before, and the error
    returned. *)
Variable DrawString :
  FreetypeContext -> Image -> string -> Z * Z -> Image * option ExtError.

(** [type Context struct].  The images [src] and [fontBackground] are
    references into the store; [fontColor] is the uniform image
    [SetFontColor] builds, which nothing mutates. *)
Record Context : Type := mkContext {
  src : option loc;
  fontBackground : option loc;
  font : option Font;
  maxFontSize : Z;
  dpi : float;
  lineHeight : float;
  fontColor : option Image;
  fontSize : Z
}.

(** The memory the package works in: the image buffers by address, and
    the receiver. *)
Record World : Type := mkWorld {
  heap : gmap loc Image;
  ctx : Context
}.

Definition alloc (h : gmap loc Image) : loc := fresh (dom h).

(** [func NewContext() *Context { return &Context{} }] *)
Definition NewContext : Context :=
  mkContext None None None 0 0%float 0%float None 0.

Definition with_images (c : Context) (s fb : option loc) : Context :=
  mkContext s fb (font c) (maxFontSize c) (dpi c) (lineHeight c)
            (fontColor c) (fontSize c).

(** [func (c *Context) SetSrc(src image.Image)] *)
Definition SetSrc (img : loc) (w : World) : exec World :=
  match heap w !! img with
  | None => Panics
  | Some i =>
      let fb := alloc (heap w) in
      Returns (mkWorld (<[fb := NewRGBA (Bounds i)]> (heap w))
                       (with_images (ctx w) (Some img) (Some fb)))
  end.

(** [func (c *Context) SetSrcPath(path string) error] *)
Definition SetSrcPath (path : string) (w : World)
  : exec (World * option (error ExtError)) :=
  match os_Open path with
  | inr err => Returns (w, Some (External err))
  | inl imageRaw =>
      let extension := strings_ToLower (Filepath.Ext path) in
      let decoded :=
        if String.eqb extension ".png" then inl (png_Decode imageRaw)
        else if String.eqb extension ".jpg" || String.eqb extension ".jpeg"
        then inl (jpeg_Decode imageRaw)
        else inr (UnsupportedError extension) in
      match decoded with
      | inr unsupported => Returns (w, Some unsupported)
      | inl (inr err) => Returns (w, Some (External err))
      | inl (inl imageDecoded) =>
          let s := alloc (heap w) in
          let h := <[s := imageDecoded]> (heap w) in
          let fb := alloc h in
          Returns (mkWorld (<[fb := NewRGBA (Bounds imageDecoded)]> h)
                           (with_images (ctx w) (Some s) (Some fb)),
                   None)
      end
  end.

Definition with_font (c : Context) (f : option Font) : Context :=
  mkContext (src c) (fontBackground c) f (maxFontSize c) (dpi c)
            (lineHeight c) (fontColor c) (fontSize c).

(** [func (c *Context) SetFontPath(path string) error] *)
Definition SetFontPath (path : string) (w : World)
  : exec (World * option (error ExtError)) :=
  match ioutil_ReadFile path with
  | inr err => Returns (w, Some (External err))
  | inl fontRaw =>
      let '(f, err) := freetype_ParseFont fontRaw in
      Returns (mkWorld (heap w) (with_font (ctx w) f), option_map External err)
  end.

(** [func (c *Context) SetFont(font *truetype.Font)] *)
Definition SetFont (f : option Font) (w : World) : exec World :=
  Returns (mkWorld (heap w) (with_font (ctx w) f)).

(** [func (c *Context) SetMaxFontSize(size int)]: [int32(size)]. *)
Definition SetMaxFontSize (size : Z) (w : World) : exec World :=
  let c := ctx w in
  Returns (mkWorld (heap w)
    (mkContext (src c) (fontBackground c) (font c) (Int32.wrap size) (dpi c)
               (lineHeight c) (fontColor c) (fontSize c))).

(** [func (c *Context) SetDPI(dpi float64)] *)
Definition SetDPI (d : float) (w : World) : exec World :=
  let c := ctx w in
  Returns (mkWorld (heap w)
    (mkContext (src c) (fontBackground c) (font c) (maxFontSize c) d
               (lineHeight c) (fontColor c) (fontSize c))).

(** [func (c *Context) SetLineHeight(height float64)] *)
Definition SetLineHeight (height : float) (w : World) : exec World :=
  let c := ctx w in
  Returns (mkWorld (heap w)
    (mkContext (src c) (fontBackground c) (font c) (maxFontSize c) (dpi c)
               height (fontColor c) (fontSize c))).

(** [func (c *Context) SetFontColor(rgbaColor Color)] *)
Definition SetFontColor (rgbaColor : Color) (w : World) : exec World :=
  let c := ctx w in
  Returns (mkWorld (heap w)
    (mkContext (src c) (fontBackground c) (font c) (maxFontSize c) (dpi c)
               (lineHeight c) (Some (NewUniform rgbaColor)) (fontSize c))).

(** [func (c *Context) SetFontImage(backgroundImage draw.Image)]: draws
    into the buffer [c.fontBackground] designates. *)
Definition SetFontImage (backgroundImage : loc) (w : World) : exec World :=
  match fontBackground (ctx w) with
  | None => Panics
  | Some fb =>
      match heap w !! fb, heap w !! backgroundImage with
      | Some dst, Some bg =>
          Returns (mkWorld (<[fb := Draw dst (Bounds dst) bg]> (heap w)) (ctx w))
      | _, _ => Panics
      end
  end.

(** [raster.Point{X: raster.Fix32(line.XPos << 8),
                  Y: raster.Fix32((line.YPos) << 8)}] *)
Definition linePoint (line : Line) : Z * Z :=
  (Int32.wrap (Z.shiftl (XPos line) 8), Int32.wrap (Z.shiftl (YPos line) 8)).

(** The loop of [drawLines] over the lines: the contents of the canvas
    after it and the error it stopped on, if any. *)
Fixpoint drawLoop (fc : FreetypeContext) (canvas : Image) (lines : list Line)
  : Image * option (error ExtError) :=
  match lines with
  | [] => (canvas, None)
  | line :: rest =>
      let words := Strings.Join (Words line) (String space EmptyString) in
      let '(canvas', err) := DrawString fc canvas words (linePoint line) in
      match err with
      | Some e => (canvas', Some (External e))
      | None => drawLoop fc canvas' rest
      end
  end.

(** The canvas [drawLines] starts from:
    [rbga := image.NewRGBA(c.src.Bounds());
     draw.Draw(rbga, rbga.Bounds(), c.src, image.ZP, 0)]. *)
Definition canvasOf (srcImage : Image) : Image :=
  let blank := NewRGBA (Bounds srcImage) in
  Draw blank (Bounds blank) srcImage.

(** The [imageContext] of [drawLines] once its setters have run. *)
Definition imageContextOf (c : Context) (rbga : loc) (size : Z)
    (srcImage : Image) : FreetypeContext :=
  mkFreetypeContext (font c) (dpi c) (fontColor c) rbga FullHinting
                    (Float64.of_int32 size) (Bounds srcImage).

(** [func (c *Context) drawLines(lines []*Line, boundingBox Rectangle,
    fontSize int32) (error, image.Image)]: the canvas is a new buffer
    [rbga]; the result is the error and the address of the canvas. *)
Definition drawLines (lines : list Line) (boundingBox : Rectangle)
    (size : Z) (w : World) : exec (World * (option (error ExtError) * loc)) :=
  let c := ctx w in
  match src c with
  | None => Panics
  | Some s =>
      match heap w !! s with
      | None => Panics
      | Some srcImage =>
          let rbga := alloc (heap w) in
          let imageContext := imageContextOf c rbga size srcImage in
          let '(canvas, err) :=
            drawLoop imageContext (canvasOf srcImage) lines in
          Returns (mkWorld (<[rbga := canvas]> (heap w)) c, (err, rbga))
      end
  end.

(** [func (c *Context) WriteText(text string, boundingBox Rectangle)
    (error, image.Image)], the recursion of the size search bounded by
    [fuel]. *)
Definition WriteText (fuel : nat) (text : string) (boundingBox : Rectangle)
    (w : World) : exec (World * (option (error ExtError) * loc)) :=
  let c := ctx w in
  match font c with
  | None => Panics
  | Some f =>
      match findSize f (lineHeight c) (maxFontSize c) fuel text boundingBox with
      | None => OutOfFuel
      | Some (_, lines, size) => drawLines lines boundingBox size w
      end
  end.

(** The configuration calls a caller makes on a context before it writes
    text. *)
Inductive call : Type :=
| CallSetSrc (img : loc)
| CallSetSrcPath (path : string)
| CallSetFontPath (path : string)
| CallSetFont (f : option Font)
| CallSetMaxFontSize (size : Z)
| CallSetDPI (d : float)
| CallSetLineHeight (height : float)
| CallSetFontColor (rgbaColor : Color)
| CallSetFontImage (backgroundImage : loc).

Definition perform (k : call) (w : World) : exec World :=
  match k with
  | CallSetSrc img => SetSrc img w
  | CallSetSrcPath path => exec_bind (SetSrcPath path w) (fun r => Returns (fst r))
  | CallSetFontPath path => exec_bind (SetFontPath path w) (fun r => Returns (fst r))
  | CallSetFont f => SetFont f w
  | CallSetMaxFontSize size => SetMaxFontSize size w
  | CallSetDPI d => SetDPI d w
  | CallSetLineHeight height => SetLineHeight height w
  | CallSetFontColor rgbaColor => SetFontColor rgbaColor w
  | CallSetFontImage bg => SetFontImage bg w
  end.

Fixpoint performAll (ks : list call) (w : World) : exec World :=
  match ks with
  | [] => Returns w
  | k :: rest => exec_bind (perform k w) (performAll rest)
  end.

Definition isSetFontImage (k : call) : bool :=
  match k with CallSetFontImage _ => true | _ => false end.

(** The calls of a sequence other than [SetFontImage]. *)
Definition withoutSetFontImage (ks : list call) : list call :=
  List.filter (fun k => negb (isSetFontImage k)) ks.

(** What a caller sees of a [WriteText]: the error, and the contents of
    the image returned. *)
Definition observed (r : exec (World * (option (error ExtError) * loc)))
  : exec (option (error ExtError) * option Image) :=
  exec_bind r (fun '(w, (err, l)) => Returns (err, heap w !! l)).

End Rendering.

(** ** Vocabulary of the store *)

(** The image address a call passes, if any. *)
Definition callImage (k : call) : option loc :=
  match k with
  | CallSetSrc img => Some img
  | CallSetFontImage backgroundImage => Some backgroundImage
  | _ => None
  end.

(** The calls of a caller whose images live at the addresses [D]. *)
Definition callsWithin (D : gset loc) (ks : list call) : Prop :=
  Forall (fun k => forall l, callImage k = Some l -> l ∈ D) ks.

(** The calls that set a source image: [SetSrc] and [SetSrcPath]. *)
Definition setsSource (k : call) : bool :=
  match k with
  | CallSetSrc _ | CallSetSrcPath _ => true
  | _ => false
  end.

(** Two worlds that differ at most in the contents of fill buffers: the
    contexts are equal, the stores have the same addresses and agree
    outside the set [S] of the buffers [SetSrc] and [SetSrcPath] have
    allocated for [fontBackground]; the caller's images [D] and the source
    image are not among them, the current [fontBackground] is. *)
Definition sameButFill {Image : Type} (D S : gset loc) (w1 w2 : World Image)
  : Prop :=
  ctx Image w1 = ctx Image w2
  /\ dom (heap Image w1) = dom (heap Image w2)
  /\ (forall l, l ∉ S -> heap Image w1 !! l = heap Image w2 !! l)
  /\ S ⊆ dom (heap Image w1)
  /\ D ⊆ dom (heap Image w1)
  /\ D ## S
  /\ (forall s, src Image (ctx Image w1) = Some s -> s ∉ S)
  /\ (forall fb, fontBackground Image (ctx Image w1) = Some fb -> fb ∈ S).

(** ** Vocabulary of the properties *)

Section Measures.

Variable font : Font.
Variable fontSize : Z.

(** The sum of the widths of the words of a line. *)
Definition wordsWidth (words : list string) : Z :=
  fold_right (fun word acc => wordWidth font word fontSize + acc) 0 words.

(** The rendered width of a line: its word widths and one space width
    between consecutive words. *)
Definition renderedWidth (words : list string) : Z :=
  wordsWidth words + spaceWidth font fontSize * Z.of_nat (pred (length words)).

(** What the wrapping loop accumulates for a line, mathematically: one
    space width and one word width per word. *)
Definition accumulatedWidth (words : list string) : Z :=
  wordsWidth words + spaceWidth font fontSize * Z.of_nat (length words).

(** The same accumulation the way the loop computes it, in [int32]. *)
Definition accumulatedWidth32 (words : list string) : Z :=
  fold_left
    (fun acc word =>
       Int32.add acc (Int32.add (spaceWidth font fontSize)
                                (wordWidth font word fontSize)))
    words 0.

(** The sum [wordWidth] computes, before any wrap-around: the advance
    width of every glyph and the kerning of every adjacent pair. *)
Fixpoint rawWidth (word : string) : Z :=
  match word with
  | EmptyString => 0
  | String ch rest =>
      AdvanceWidth font fontSize (Index font (rune ch))
      + match rest with
        | EmptyString => 0
        | String ch2 _ =>
            Kerning font fontSize (Index font (rune ch)) (Index font (rune ch2))
        end
      + rawWidth rest
  end.

(** No pair made of a glyph and the space glyph is kerned. *)
Definition spaceUnkerned : Prop :=
  forall i : Z,
    Kerning font fontSize i (Index font (rune space)) = 0 /\
    Kerning font fontSize (Index font (rune space)) i = 0.

End Measures.

(** The test of [calculateSize] on a layout: [totalHeight <= boundingBox.Height]. *)
Definition fitsAt (font : Font) (lineHeight : float) (text : string)
    (boundingBox : Rectangle) (fontSize : Z) : bool :=
  snd (layout font lineHeight boundingBox fontSize text) <=? Height boundingBox.

(** Fitting is monotone with threshold [F]: among the sizes from 1 to
    [maxFontSize], those that fit are the ones up to [F]. *)
Definition fitsUpTo (font : Font) (lineHeight : float) (text : string)
    (boundingBox : Rectangle) (maxFontSize F : Z) : Prop :=
  forall s, 1 <= s <= maxFontSize ->
    (fitsAt font lineHeight text boundingBox s = true <-> s <= F).

(** The arguments [fontSize] and [lastFit] of the calls of a run that
    does not overflow: the last fit is below the size probed, or it is the
    size probed and fits. *)
Definition searchInv (font : Font) (lineHeight : float) (text : string)
    (boundingBox : Rectangle) (maxFontSize f l : Z) : Prop :=
  0 <= l <= f /\ f <= maxFontSize /\ 1 <= f
  /\ (l = f -> fitsAt font lineHeight text boundingBox f = true).

(** A measure every recursive call lowers: the fits left above [lastFit],
    each worth a full bisection, and the bisection steps left. *)
Definition searchPhi (maxFontSize f l : Z) : Z :=
  (maxFontSize - l) * (Z.log2_up maxFontSize + 1) + Z.log2_up (f - l).

(** The same two for a fit that is monotone with a threshold [F] below the
    maximum: the size probed is never further above the threshold than the
    threshold is above the last fit. *)
Definition monoInv (maxFontSize F f l : Z) : Prop :=
  0 <= l <= F /\ l < f /\ f <= maxFontSize /\ F - l + 1 <= 2 * (f - l).

Definition monoPhi (maxFontSize F f l : Z) : Z :=
  (Z.log2_up maxFontSize + 1) * Z.log2 (F - l + 1) + Z.log2_up (f - l).

(** A byte does not occur in a string. *)
Fixpoint absent (ch : ascii) (s : string) : Prop :=
  match s with
  | EmptyString => True
  | String c rest => c <> ch /\ absent ch rest
  end.

(** Consecutive lines below a baseline [prevY]: each one lies its own
    [BaseToBaseHeight], which is [gap], below the one before. *)
Fixpoint stacked (gap prevY : Z) (lines : list Line) : Prop :=
  match lines with
  | [] => True
  | line :: rest =>
      BaseToBaseHeight line = gap /\
      YPos line = Int32.add prevY (BaseToBaseHeight line) /\
      stacked gap (YPos line) rest
  end.

(** ** Test fixtures *)

(** A monospaced font: every glyph advances by [scale] pixels and no pair
    is kerned. *)
Definition monoFont : Font :=
  mkFont (fun r => r) (fun scale _ => scale) (fun _ _ _ => 0).

(** A recording back end: an image is the list of the strings drawn on it
    with their positions; drawing one image over another appends its
    record; a string that starts with an exclamation mark cannot be drawn;
    the file system holds three files. *)
Module Test.

Definition Image : Type := list (string * (Z * Z)).

Definition Bounds (_ : Image) : unit := tt.
Definition NewRGBA (_ : unit) : Image := [].
Definition NewUniform (_ : Color) : Image := [].
Definition Draw (dst : Image) (_ : unit) (source : Image) : Image := dst ++ source.

Definition DrawString (_ : FreetypeContext Image unit) (canvas : Image)
    (s : string) (pt : Z * Z) : Image * option string :=
  (canvas ++ [(s, pt)],
   if String.prefix "!" s then Some "glyph not drawn"%string else None).

Definition files : list string := ["photo.gif"; "photo.png"; "font.ttf"]%string.

Definition os_Open (path : string) : unit + string :=
  if existsb (String.eqb path) files then inl tt
  else inr "no such file or directory"%string.

Definition png_Decode (_ : unit) : Image + string := inl [].
Definition jpeg_Decode (_ : unit) : Image + string := inl [].

Definition ioutil_ReadFile (path : string) : string + string :=
  if existsb (String.eqb path) files then inl path
  else inr "no such file or directory"%string.

Definition freetype_ParseFont (raw : string) : option Font * option string :=
  if String.eqb raw "font.ttf" then (Some monoFont, None)
  else (None, Some "invalid font"%string).

(** [strings.ToLower] on ASCII letters; other bytes are kept. *)
Definition lowerByte (ch : ascii) : ascii :=
  let n := nat_of_ascii ch in
  if ((65 <=? n) && (n <=? 90))%nat then ascii_of_nat (n + 32) else ch.

Fixpoint ToLower (s : string) : string :=
  match s with
  | EmptyString => EmptyString
  | String ch rest => String (lowerByte ch) (ToLower rest)
  end.

(** A world with one caller image at address 0 and an empty context. *)
Definition world0 : World Image :=
  mkWorld Image (<[0%nat := [("photo"%string, (0, 0))]]> ∅) (NewContext Image).

(** The same with a source image, its fill buffer, a font and a maximum
    font size set. *)
Definition world1 (maxSize : Z) : World Image :=
  mkWorld Image
    (<[1%nat := []]> (<[0%nat := [("photo"%string, (0, 0))]]> ∅))
    (mkContext Image (Some 0%nat) (Some 1%nat) (Some monoFont) maxSize
               0%float 0%float (Some []) 0).

End Test.

(** Sums in [int32] arithmetic. *)
Definition sum32 (l : list Z) : Z := fold_left Int32.add l 0.

(** * Properties *)

(** ** [int32] arithmetic *)

Module Int32Facts.

Lemma wrap_in_range z : Int32.in_range (Int32.wrap z).
Proof.
  unfold Int32.in_range, Int32.wrap, Int32.min_int, Int32.max_int.
  pose proof (Z.mod_pos_bound (z + 2 ^ 31) (2 ^ 32) ltac:(lia)). lia.
Qed.

Lemma wrap_small z : Int32.in_range z -> Int32.wrap z = z.
Proof.
  unfold Int32.in_range, Int32.wrap, Int32.min_int, Int32.max_int. intros H.
  rewrite Z.mod_small by lia. lia.
Qed.

Lemma wrap_idem z : Int32.wrap (Int32.wrap z) = Int32.wrap z.
Proof. apply wrap_small, wrap_in_range. Qed.

Lemma wrap_add_l a b : Int32.wrap (Int32.wrap a + b) = Int32.wrap (a + b).
Proof.
  unfold Int32.wrap. f_equal.
  replace ((a + 2 ^ 31) mod 2 ^ 32 - 2 ^ 31 + b + 2 ^ 31)
    with ((a + 2 ^ 31) mod 2 ^ 32 + b) by lia.
  rewrite Zplus_mod_idemp_l. f_equal. lia.
Qed.

Lemma wrap_add_r a b : Int32.wrap (a + Int32.wrap b) = Int32.wrap (a + b).
Proof. rewrite Z.add_comm, wrap_add_l. f_equal. lia. Qed.

Lemma add_in_range a b : Int32.in_range (Int32.add a b).
Proof. apply wrap_in_range. Qed.

Lemma add_0_l a : Int32.in_range a -> Int32.add 0 a = a.
Proof. intros. unfold Int32.add. now rewrite Z.add_0_l, wrap_small. Qed.

Lemma add_0_r a : Int32.in_range a -> Int32.add a 0 = a.
Proof. intros. unfold Int32.add. now rewrite Z.add_0_r, wrap_small. Qed.

Lemma add_small a b : Int32.in_range (a + b) -> Int32.add a b = a + b.
Proof. apply wrap_small. Qed.

Lemma sub_small a b : Int32.in_range (a - b) -> Int32.sub a b = a - b.
Proof. apply wrap_small. Qed.

Lemma zero_in_range : Int32.in_range 0.
Proof. unfold Int32.in_range, Int32.min_int, Int32.max_int. lia. Qed.

End Int32Facts.

(** Equalities between [int32] expressions that hold modulo [2^32]. *)
Ltac int32_congruence :=
  unfold Int32.add, Int32.sub, Int32.wrap in *;
  change (2 ^ 31) with 2147483648 in *;
  change (2 ^ 32) with 4294967296 in *;
  Z.div_mod_to_equations; lia.

Create HintDb int32.

#[local] Hint Resolve Int32Facts.wrap_in_range Int32Facts.add_in_range
  Int32Facts.zero_in_range : int32.

(** ** Splitting *)

Lemma Split_nonempty s sep : Strings.Split s sep <> [].
Proof.
  induction s as [|ch rest IH]; simpl; [discriminate|].
  destruct (Ascii.eqb ch sep); [discriminate|].
  destruct (Strings.Split rest sep); [contradiction|discriminate].
Qed.

Lemma Split_absent s sep : absent sep s -> Strings.Split s sep = [s].
Proof.
  induction s as [|ch rest IH]; simpl; [reflexivity|].
  intros [Hne Hrest]. rewrite (IH Hrest).
  destruct (Ascii.eqb_spec ch sep); [contradiction|reflexivity].
Qed.

(** ** The wrapping phase *)

Section WrapFacts.

Variable font : Font.
Variable boundingBox : Rectangle.
Variable fontSize : Z.

#[local] Abbreviation sw := (spaceWidth font fontSize).
#[local] Abbreviation ww := (fun word => wordWidth font word fontSize).

(** A property of lines that the empty line has and that adding a word
    preserves holds of every line the wrapping phase produces. *)
Section Invariant.

Variable P : Line -> Prop.
Hypothesis P_new : P newLine.
Hypothesis P_first : forall word, P (addWord font fontSize newLine word (ww word)).
Hypothesis P_add :
  forall currLine word,
    P currLine ->
    ~ Width boundingBox
        < Int32.add (Int32.add (ww word) (currWidth currLine)) sw ->
    P (addWord font fontSize currLine word (ww word)).

Lemma wrapWords_Forall words :
  forall lines currLine,
    Forall P lines -> P currLine ->
    Forall P (wrapWords font boundingBox fontSize words lines currLine).
Proof using P_first P_add.
  induction words as [|word rest IH]; intros lines currLine Hl Hc; simpl.
  - apply Forall_app; split; [assumption|]. constructor; [assumption|constructor].
  - destruct (Z.ltb_spec (Width boundingBox)
                (Int32.add (Int32.add (wordWidth font word fontSize)
                                      (currWidth currLine)) sw)) as [Hlt|Hge].
    + apply IH; [|apply P_first].
      apply Forall_app; split; [assumption|]. constructor; [assumption|constructor].
    + apply IH; [assumption|]. apply P_add; [assumption|lia].
Qed.

Lemma wrapHardLines_Forall hardLines :
  forall lines,
    Forall P lines ->
    Forall P (wrapHardLines font boundingBox fontSize hardLines lines).
Proof using P_new P_first P_add.
  induction hardLines as [|hardLine rest IH]; intros lines Hl; simpl.
  - assumption.
  - apply IH, wrapWords_Forall; assumption.
Qed.

Lemma wrapText_Forall text : Forall P (wrapText font boundingBox fontSize text).
Proof using P_new P_first P_add.
  apply wrapHardLines_Forall. constructor.
Qed.

End Invariant.

Lemma accumulatedWidth32_snoc words word :
  accumulatedWidth32 font fontSize (words ++ [word])
  = Int32.add (accumulatedWidth32 font fontSize words) (Int32.add sw (ww word)).
Proof. unfold accumulatedWidth32. now rewrite fold_left_app. Qed.

(** Every line's [currWidth] is the [int32] accumulation over its words. *)
Lemma wrapText_currWidth text :
  Forall (fun line => currWidth line = accumulatedWidth32 font fontSize (Words line))
         (wrapText font boundingBox fontSize text).
Proof.
  apply wrapText_Forall.
  - reflexivity.
  - intros word. reflexivity.
  - intros currLine word H _. simpl. rewrite accumulatedWidth32_snoc. now rewrite H.
Qed.

(** A line that holds a word the loop appended to a line in progress has
    passed the width test. *)
Lemma wrapText_checked text :
  Forall (fun line => (2 <= length (Words line))%nat ->
                      currWidth line <= Width boundingBox)
         (wrapText font boundingBox fontSize text).
Proof.
  apply wrapText_Forall.
  - simpl. lia.
  - intros word. simpl. lia.
  - intros currLine word _ Hfit _. simpl.
    assert (Int32.add (currWidth currLine) (Int32.add sw (ww word))
            = Int32.add (Int32.add (ww word) (currWidth currLine)) sw) as ->; [|lia].
    unfold Int32.add.
    rewrite Int32Facts.wrap_add_r, Int32Facts.wrap_add_l. f_equal. lia.
Qed.

(** The wrapping phase leaves the positions at their zero value. *)
Lemma wrapText_unplaced text :
  Forall (fun line => XPos line = 0 /\ YPos line = 0)
         (wrapText font boundingBox fontSize text).
Proof.
  apply wrapText_Forall.
  - now split.
  - intros word. now split.
  - intros currLine word H _. exact H.
Qed.

Lemma wrapWords_nonempty words lines currLine :
  wrapWords font boundingBox fontSize words lines currLine <> [].
Proof.
  revert lines currLine. induction words as [|word rest IH]; intros; simpl.
  - now destruct lines.
  - destruct (_ <? _); apply IH.
Qed.

Lemma wrapText_nonempty text : wrapText font boundingBox fontSize text <> [].
Proof.
  unfold wrapText.
  destruct (Strings.Split text newline) as [|hardLine rest] eqn:E.
  - now apply Split_nonempty in E.
  - clear E. simpl.
    generalize (wrapWords_nonempty (Strings.Split hardLine space) [] newLine).
    generalize (wrapWords font boundingBox fontSize (Strings.Split hardLine space) [] newLine).
    induction rest as [|h r IH]; intros l Hl; simpl; [assumption|].
    apply IH, wrapWords_nonempty.
Qed.

Lemma accumulatedWidth32_from words :
  forall acc,
    Int32.in_range acc ->
    fold_left
      (fun acc word => Int32.add acc (Int32.add sw (ww word))) words acc
    = Int32.wrap (acc + accumulatedWidth font fontSize words).
Proof.
  unfold accumulatedWidth.
  induction words as [|word rest IH]; intros acc Hacc; simpl fold_left.
  - cbn [wordsWidth fold_right length].
    replace (acc + (0 + sw * Z.of_nat 0)) with acc by lia.
    now rewrite Int32Facts.wrap_small.
  - rewrite IH by apply Int32Facts.add_in_range.
    unfold Int32.add. rewrite Int32Facts.wrap_add_r, Int32Facts.wrap_add_l.
    f_equal. simpl wordsWidth. simpl length. lia.
Qed.

Lemma accumulatedWidth32_wrap words :
  accumulatedWidth32 font fontSize words
  = Int32.wrap (accumulatedWidth font fontSize words).
Proof.
  unfold accumulatedWidth32.
  rewrite accumulatedWidth32_from by apply Int32Facts.zero_in_range.
  f_equal.
Qed.

End WrapFacts.

(** ** Word widths *)

Section WidthFacts.

Variable font : Font.
Variable fontSize : Z.

#[local] Abbreviation sp := (String space EmptyString).

Lemma wordWidth_from_raw word :
  forall width,
    Int32.in_range width ->
    wordWidth_from font word fontSize width
    = Int32.wrap (width + rawWidth font fontSize word).
Proof.
  induction word as [|ch rest IH]; intros width Hw.
  - simpl. now rewrite Z.add_0_r, Int32Facts.wrap_small.
  - cbn [wordWidth_from rawWidth]. destruct rest as [|ch2 rest'].
    + simpl. unfold Int32.add. f_equal. lia.
    + rewrite IH by apply Int32Facts.add_in_range. int32_congruence.
Qed.

Lemma wordWidth_raw word :
  wordWidth font word fontSize = Int32.wrap (rawWidth font fontSize word).
Proof.
  unfold wordWidth. now rewrite wordWidth_from_raw by apply Int32Facts.zero_in_range.
Qed.

Lemma wordWidth_in_range word : Int32.in_range (wordWidth font word fontSize).
Proof. rewrite wordWidth_raw. apply Int32Facts.wrap_in_range. Qed.

Hypothesis unkerned : spaceUnkerned font fontSize.

Lemma rawWidth_spaced a b :
  rawWidth font fontSize (String.append a (String space b))
  = rawWidth font fontSize a + rawWidth font fontSize sp + rawWidth font fontSize b.
Proof using unkerned.
  induction a as [|ch rest IH].
  - simpl. destruct b as [|cb b2]; [lia|].
    pose proof (unkerned (Index font (rune cb))) as [_ H]. lia.
  - pose proof (unkerned (Index font (rune ch))) as [H _].
    destruct rest as [|c2 rest2]; simpl in *; lia.
Qed.

Lemma wordWidth_spaced a b :
  wordWidth font (String.append a (String.append sp b)) fontSize
  = Int32.wrap (wordWidth font a fontSize + spaceWidth font fontSize
                + wordWidth font b fontSize).
Proof using unkerned.
  unfold spaceWidth. rewrite !wordWidth_raw.
  change (String.append sp b) with (String space b).
  rewrite rawWidth_spaced. int32_congruence.
Qed.

Lemma joined_width words :
  words <> [] ->
  Int32.add (wordWidth font (Strings.Join words sp) fontSize) (spaceWidth font fontSize)
  = accumulatedWidth32 font fontSize words.
Proof using unkerned.
  intros Hne. rewrite accumulatedWidth32_wrap. unfold accumulatedWidth.
  induction words as [|w ws IH]; [contradiction|].
  destruct ws as [|w' ws'].
  - cbn [Strings.Join wordsWidth fold_right length]. unfold Int32.add. f_equal. lia.
  - change (Strings.Join (w :: w' :: ws') sp)
      with (String.append w (String.append sp (Strings.Join (w' :: ws') sp))).
    rewrite wordWidth_spaced. unfold Int32.add in *.
    rewrite Int32Facts.wrap_add_l.
    replace (wordWidth font w fontSize + spaceWidth font fontSize
             + wordWidth font (Strings.Join (w' :: ws') sp) fontSize
             + spaceWidth font fontSize)
      with (wordWidth font w fontSize + spaceWidth font fontSize
            + (wordWidth font (Strings.Join (w' :: ws') sp) fontSize
               + spaceWidth font fontSize)) by lia.
    rewrite <- Int32Facts.wrap_add_r, IH by discriminate.
    rewrite Int32Facts.wrap_add_r. f_equal.
    cbn [wordsWidth fold_right length]. lia.
Qed.

End WidthFacts.

(** ** Claims about the wrapping phase *)

(** C3 (wrap correctness).  For a box of non-negative width, a font whose
    space has a non-negative width at the size, and lines whose accumulated
    width does not leave [int32], every line the wrapping phase produces has
    a rendered width (its word widths and one space width between
    consecutive words) of at most the box width, or holds one single word
    whose own width exceeds the box width. *)
Theorem wrap_correctness font boundingBox fontSize text :
  0 <= Width boundingBox ->
  0 <= spaceWidth font fontSize ->
  Forall (fun line => Int32.in_range (accumulatedWidth font fontSize (Words line)))
         (wrapText font boundingBox fontSize text) ->
  Forall (fun line =>
            renderedWidth font fontSize (Words line) <= Width boundingBox
            \/ exists word,
                Words line = [word]
                /\ Width boundingBox < wordWidth font word fontSize)
         (wrapText font boundingBox fontSize text).
Proof.
  intros HW Hsw Hrange.
  pose proof (wrapText_currWidth font boundingBox fontSize text) as Hcw.
  pose proof (wrapText_checked font boundingBox fontSize text) as Hck.
  rewrite List.Forall_forall in *. intros line Hin.
  specialize (Hrange line Hin). specialize (Hcw line Hin). specialize (Hck line Hin).
  rewrite accumulatedWidth32_wrap, Int32Facts.wrap_small in Hcw by assumption.
  unfold renderedWidth, accumulatedWidth in *.
  destruct (Words line) as [|w [|w' ws]] eqn:E.
  - left. simpl. lia.
  - destruct (Z_le_gt_dec (wordWidth font w fontSize) (Width boundingBox)).
    + left. simpl. lia.
    + right. exists w. split; [reflexivity|lia].
  - left. specialize (Hck ltac:(simpl; lia)).
    cbn [length pred] in *. lia.
Qed.

(** A text of three words in a box that holds two of them at size 2. *)
Lemma wrap_correctness_witness :
  Forall (fun line =>
            renderedWidth monoFont 2 (Words line) <= 13
            \/ exists word,
                Words line = [word] /\ 13 < wordWidth monoFont word 2)
         (wrapText monoFont (mkRectangle 0 0 13 50) 2 "ab cd ef").
Proof.
  apply (wrap_correctness monoFont (mkRectangle 0 0 13 50) 2 "ab cd ef").
  - simpl. lia.
  - vm_compute. discriminate.
  - repeat (apply List.Forall_cons; [vm_compute; split; discriminate|]).
    apply List.Forall_nil.
Defined.

(** C3, as stated for every font size, fails where the accumulated width
    leaves [int32]: at size [2^30] with a font whose glyphs are as wide as
    the size, the test of the second word of the text "a b" adds up to
    [2^30 + (-2^31) + 2^30 = 0], which is not above the width 100, so both
    words stay on one line, of rendered width [3 * 2^30].  The same happens
    with "a b c", whose one line is wider than the box also when its
    rendered width is read in [int32]. *)
Lemma wrap_overflow_keeps_wide_line :
  wrapText monoFont (mkRectangle 0 0 100 50) (2 ^ 30) "a b"
  = [mkLine ["a"; "b"]%string 0 0 0 0]
  /\ renderedWidth monoFont (2 ^ 30) ["a"; "b"]%string = 3 * 2 ^ 30
  /\ Width (mkRectangle 0 0 100 50) < 3 * 2 ^ 30
  /\ wrapText monoFont (mkRectangle 0 0 100 50) (2 ^ 30) "a b c"
     = [mkLine ["a"; "b"; "c"]%string 0 0 (- 2 ^ 31) 0]
  /\ renderedWidth monoFont (2 ^ 30) ["a"; "b"; "c"]%string = 5 * 2 ^ 30
  /\ Int32.wrap (5 * 2 ^ 30) = 2 ^ 30
  /\ Width (mkRectangle 0 0 100 50) < 2 ^ 30.
Proof. repeat split; vm_compute; reflexivity. Qed.

(** C7, as stated, fails: the line of the text "a" records twice the width
    of its joined string, since the loop adds a space width for the first
    word too. *)
Lemma currWidth_is_not_joined_width :
  exists line,
    In line (wrapText monoFont (mkRectangle 0 0 100 50) 2 "a")
    /\ wordWidth monoFont (Strings.Join (Words line) " ") 2 <> currWidth line.
Proof.
  exists (mkLine ["a"%string] 0 0 4 0). split.
  - vm_compute. left. reflexivity.
  - vm_compute. discriminate.
Qed.

(** C7, amended.  Every line's [currWidth] is the [int32] sum, over its
    words, of one space width and the word's width; and when the font kerns
    no pair that involves the space glyph, the width of the string joined
    with single spaces, plus one space width, is the [currWidth] of every
    line that holds a word. *)
Theorem currWidth_joined font boundingBox fontSize text :
  spaceUnkerned font fontSize ->
  Forall (fun line =>
            currWidth line = accumulatedWidth32 font fontSize (Words line)
            /\ (Words line <> [] ->
                Int32.add (wordWidth font (Strings.Join (Words line) " ") fontSize)
                          (spaceWidth font fontSize)
                = currWidth line))
         (wrapText font boundingBox fontSize text).
Proof.
  intros Hk.
  pose proof (wrapText_currWidth font boundingBox fontSize text) as Hcw.
  rewrite List.Forall_forall in *. intros line Hin.
  specialize (Hcw line Hin). split; [assumption|].
  intros Hne. rewrite Hcw. now apply joined_width.
Qed.

Lemma monoFont_spaceUnkerned fontSize : spaceUnkerned monoFont fontSize.
Proof. intros i. split; reflexivity. Defined.

Lemma currWidth_joined_witness :
  Forall (fun line =>
            currWidth line = accumulatedWidth32 monoFont 2 (Words line)
            /\ (Words line <> [] ->
                Int32.add (wordWidth monoFont (Strings.Join (Words line) " ") 2)
                          (spaceWidth monoFont 2)
                = currWidth line))
         (wrapText monoFont (mkRectangle 0 0 13 50) 2 "ab cd ef").
Proof.
  apply (currWidth_joined monoFont (mkRectangle 0 0 13 50) 2 "ab cd ef").
  apply monoFont_spaceUnkerned.
Defined.

(** C4, what the code does.  A text of one word (no space, no newline)
    whose width with one space width exceeds the box width is laid out on
    two lines: the loop closes the line it has just opened, which stays
    empty, and puts the word on a second one. *)
Theorem single_wide_word_two_lines font boundingBox fontSize text :
  absent space text -> absent newline text ->
  Width boundingBox < wordWidth font text fontSize ->
  0 <= spaceWidth font fontSize ->
  Int32.in_range (wordWidth font text fontSize + spaceWidth font fontSize) ->
  wrapText font boundingBox fontSize text
  = [ newLine;
      mkLine [text] 0 0
             (wordWidth font text fontSize + spaceWidth font fontSize) 0 ].
Proof.
  intros Hsp Hnl Hwide Hsw Hrange.
  unfold wrapText. rewrite (Split_absent _ _ Hnl). cbn [wrapHardLines].
  rewrite (Split_absent _ _ Hsp). cbn [wrapWords newLine currWidth].
  pose proof (wordWidth_in_range font fontSize text) as Hw.
  assert (Int32.add (Int32.add (wordWidth font text fontSize) 0)
                    (spaceWidth font fontSize)
          = wordWidth font text fontSize + spaceWidth font fontSize) as Hsum.
  { rewrite Int32Facts.add_0_r by assumption. now apply Int32Facts.add_small. }
  rewrite Hsum.
  destruct (Z.ltb_spec (Width boundingBox)
              (wordWidth font text fontSize + spaceWidth font fontSize)); [|lia].
  cbn [app]. unfold addWord. cbn [Words XPos YPos currWidth BaseToBaseHeight newLine app].
  do 2 f_equal. f_equal.
  pose proof (wordWidth_in_range font fontSize (String space EmptyString)) as Hs.
  rewrite Int32Facts.add_0_l by apply Int32Facts.add_in_range.
  rewrite Int32Facts.add_small; [lia|].
  replace (spaceWidth font fontSize + wordWidth font text fontSize)
    with (wordWidth font text fontSize + spaceWidth font fontSize) by lia.
  assumption.
Qed.

(** The scenario of the specification: one long word in a box 50 wide. *)
Lemma single_wide_word_two_lines_witness :
  wrapText monoFont (mkRectangle 0 0 50 100) 10
           "Supercalifragilisticexpialidocious"
  = [ newLine;
      mkLine ["Supercalifragilisticexpialidocious"%string] 0 0
             (wordWidth monoFont "Supercalifragilisticexpialidocious" 10
              + spaceWidth monoFont 10) 0 ].
Proof.
  apply (single_wide_word_two_lines monoFont (mkRectangle 0 0 50 100) 10
           "Supercalifragilisticexpialidocious").
  - vm_compute. repeat split; discriminate.
  - vm_compute. repeat split; discriminate.
  - vm_compute. reflexivity.
  - vm_compute. discriminate.
  - vm_compute. split; discriminate.
Defined.

(** ** The positioning phase *)

Section PlaceFacts.

Variable lineHeight : float.
Variable boundingBox : Rectangle.
Variable fontSize : Z.

Hypothesis X_range : Int32.in_range (X boundingBox).

#[local] Abbreviation gap := (Int32.add (linePad lineHeight fontSize) fontSize).

Lemma placeRest_spec lines :
  forall prevY totalHeight,
    Forall (fun line => XPos line = 0 /\ YPos line = 0) lines ->
    let r := placeRest lineHeight boundingBox fontSize prevY lines totalHeight in
    map Words (fst r) = map Words lines
    /\ map currWidth (fst r) = map currWidth lines
    /\ stacked gap prevY (fst r)
    /\ Forall (fun line => XPos line = X boundingBox) (fst r)
    /\ snd r = fold_left Int32.add (map BaseToBaseHeight (fst r)) totalHeight.
Proof using X_range.
  induction lines as [|line rest IH]; intros prevY totalHeight Hun; cbn zeta.
  - simpl. repeat split; constructor.
  - apply Forall_cons in Hun as [[HX HY] Hrest].
    cbn [placeRest].
    specialize (IH (YPos (placeNext lineHeight boundingBox fontSize prevY line))
                   (Int32.add totalHeight
                      (BaseToBaseHeight
                         (placeNext lineHeight boundingBox fontSize prevY line)))
                   Hrest).
    cbn zeta in IH.
    destruct (placeRest lineHeight boundingBox fontSize _ rest _) as [rest' total].
    cbn [fst snd] in *.
    destruct IH as (Hw & Hc & Hst & Hx & Ht).
    cbn [map stacked fold_left].
    cbn [placeNext Words currWidth BaseToBaseHeight YPos XPos] in *.
    rewrite HY in *.
    rewrite !Int32Facts.add_0_l in * by apply Int32Facts.add_in_range.
    repeat split; try congruence; try assumption.
    constructor; [|assumption].
    cbn [placeNext XPos]. rewrite HX. now apply Int32Facts.add_0_l.
Qed.

Hypothesis Y_range : Int32.in_range (Y boundingBox).
Hypothesis size_range : Int32.in_range fontSize.

Lemma placeLines_spec line rest :
  Forall (fun line => XPos line = 0 /\ YPos line = 0) (line :: rest) ->
  exists first others,
    fst (placeLines lineHeight boundingBox fontSize (line :: rest)) = first :: others
    /\ map Words (first :: others) = map Words (line :: rest)
    /\ map currWidth (first :: others) = map currWidth (line :: rest)
    /\ YPos first = Y boundingBox
    /\ BaseToBaseHeight first = fontSize
    /\ stacked gap (YPos first) others
    /\ Forall (fun line => XPos line = X boundingBox) (first :: others)
    /\ snd (placeLines lineHeight boundingBox fontSize (line :: rest))
       = sum32 (map BaseToBaseHeight (first :: others)).
Proof using X_range Y_range size_range.
  intros Hun. apply Forall_cons in Hun as [[HX HY] Hrest].
  cbn [placeLines].
  pose proof (placeRest_spec rest (YPos (placeFirst boundingBox fontSize line))
                (Int32.add 0 (BaseToBaseHeight (placeFirst boundingBox fontSize line)))
                Hrest) as H.
  cbn zeta in H.
  destruct (placeRest lineHeight boundingBox fontSize _ rest _) as [rest' total].
  cbn [fst snd] in *.
  destruct H as (Hw & Hc & Hst & Hx & Ht).
  exists (placeFirst boundingBox fontSize line), rest'.
  cbn [placeFirst Words currWidth BaseToBaseHeight YPos XPos map] in *.
  rewrite HY in *.
  rewrite !Int32Facts.add_0_l in * by assumption.
  repeat split; try congruence; try assumption.
  - constructor; [|assumption].
    cbn [placeFirst XPos]. rewrite HX. now apply Int32Facts.add_0_l.
  - rewrite Ht. unfold sum32. cbn [fold_left].
    now rewrite Int32Facts.add_0_l by assumption.
Qed.

End PlaceFacts.

(** A non-negative floor is the truncation toward zero. *)
Lemma floor_nonneg_trunc x z :
  Float64.floor x = Some z -> 0 <= z -> Float64.trunc x = Some z.
Proof.
  unfold Float64.floor, Float64.trunc.
  destruct (Prim2SF x) as [s|s| |s m e]; try congruence.
  destruct s; [|congruence].
  intros [= <-] Hz. exfalso.
  pose proof (Z.shiftl_nonneg (Z.pos m) e) as [_ Hnn].
  specialize (Hnn ltac:(lia)).
  destruct (Z.eqb_spec (Z.shiftl (Z.shiftl (Z.pos m) e) (- e)) (Z.pos m)) as [He|He];
    [|lia].
  assert (Z.shiftl (Z.pos m) e = 0) as H0 by lia.
  rewrite H0, Z.shiftl_0_l in He. lia.
Qed.

Lemma to_int32_floor x z :
  Float64.floor x = Some z -> 0 <= z <= Int32.max_int -> Float64.to_int32 x = z.
Proof.
  intros Hf [Hz Hmax]. unfold Float64.to_int32.
  rewrite (floor_nonneg_trunc x z Hf Hz).
  destruct (Z.leb_spec Int32.min_int z), (Z.leb_spec z Int32.max_int);
    cbn [andb]; try reflexivity; unfold Int32.min_int in *; lia.
Qed.

(** ** Claims about the positioning phase *)

(** C6, as stated, fails for a negative line-height ratio: the conversion
    to [int32] truncates toward zero, where the floor rounds down.  With a
    ratio of -0.5 at size 1 the second line lies 1 below the first, not
    [floor(-0.5) + 1 = 0]. *)
Lemma gap_is_not_floor :
  exists line z,
    nth_error
      (fst (layout monoFont (-0.5)%float (mkRectangle 0 0 100 200) 1
                   (String "a" (String newline "b")))) 1 = Some line
    /\ Float64.floor (PrimFloat.mul (-0.5)%float (Float64.of_int32 1)) = Some z
    /\ BaseToBaseHeight line <> z + 1.
Proof.
  exists (mkLine ["b"%string] 0 1 2 1), (-1). repeat split.
  vm_compute. discriminate.
Qed.

(** C6, amended.  In the layout at size [S], the first line has its
    baseline at [box.Y] and a [BaseToBaseHeight] of [S]; every later line
    has a [BaseToBaseHeight] of [int32(r*S) + S] and lies that much below
    the line before; every line has [XPos = box.X]; the total height is the
    sum of the [BaseToBaseHeight]s plus [int32(r*S)], all sums being
    [int32] sums; and [int32(r*S)], the product truncated toward zero, is
    [floor(r*S)] whenever that floor is a non-negative [int32]. *)
Theorem layout_positions font lineHeight boundingBox fontSize text :
  Int32.in_range (X boundingBox) ->
  Int32.in_range (Y boundingBox) ->
  Int32.in_range fontSize ->
  exists first others,
    fst (layout font lineHeight boundingBox fontSize text) = first :: others
    /\ map Words (first :: others)
       = map Words (wrapText font boundingBox fontSize text)
    /\ YPos first = Y boundingBox
    /\ BaseToBaseHeight first = fontSize
    /\ stacked (Int32.add (linePad lineHeight fontSize) fontSize)
               (YPos first) others
    /\ Forall (fun line => XPos line = X boundingBox) (first :: others)
    /\ snd (layout font lineHeight boundingBox fontSize text)
       = Int32.add (sum32 (map BaseToBaseHeight (first :: others)))
                   (linePad lineHeight fontSize)
    /\ (forall z,
          Float64.floor (PrimFloat.mul lineHeight (Float64.of_int32 fontSize))
          = Some z ->
          0 <= z <= Int32.max_int ->
          linePad lineHeight fontSize = z).
Proof.
  intros HX HY HS. unfold layout.
  pose proof (wrapText_unplaced font boundingBox fontSize text) as Hun.
  pose proof (wrapText_nonempty font boundingBox fontSize text) as Hne.
  destruct (wrapText font boundingBox fontSize text) as [|line rest]; [contradiction|].
  destruct (placeLines_spec lineHeight boundingBox fontSize HX HY HS line rest Hun)
    as (first & others & Hfst & Hw & _ & Hy & Hb & Hst & Hx & Ht).
  destruct (placeLines lineHeight boundingBox fontSize (line :: rest))
    as [lines total].
  cbn [fst snd] in *.
  exists first, others. repeat split; try assumption.
  - now rewrite Ht.
  - intros z Hz Hrange. now apply to_int32_floor.
Qed.

Lemma layout_positions_witness :
  exists first others,
    fst (layout monoFont 0.5%float (mkRectangle 3 7 100 200) 10
                (String "a" (String newline "b"))) = first :: others
    /\ map Words (first :: others)
       = map Words (wrapText monoFont (mkRectangle 3 7 100 200) 10
                             (String "a" (String newline "b")))
    /\ YPos first = 7
    /\ BaseToBaseHeight first = 10
    /\ stacked (Int32.add (linePad 0.5%float 10) 10) (YPos first) others
    /\ Forall (fun line => XPos line = 3) (first :: others)
    /\ snd (layout monoFont 0.5%float (mkRectangle 3 7 100 200) 10
                   (String "a" (String newline "b")))
       = Int32.add (sum32 (map BaseToBaseHeight (first :: others)))
                   (linePad 0.5%float 10)
    /\ (forall z,
          Float64.floor (PrimFloat.mul 0.5%float (Float64.of_int32 10)) = Some z ->
          0 <= z <= Int32.max_int ->
          linePad 0.5%float 10 = z).
Proof.
  apply (layout_positions monoFont 0.5%float (mkRectangle 3 7 100 200) 10
           (String "a" (String newline "b")));
    vm_compute; split; discriminate.
Defined.

(** ** The size search *)

Section SearchFacts.

Variable font : Font.
Variable lineHeight : float.
Variable maxFontSize : Z.
Variable text : string.
Variable boundingBox : Rectangle.

#[local] Abbreviation fits := (fitsAt font lineHeight text boundingBox).
#[local] Abbreviation linesAt :=
  (fun size => fst (layout font lineHeight boundingBox size text)).
#[local] Abbreviation body :=
  (calculateSize_body font lineHeight maxFontSize text boundingBox).
#[local] Abbreviation search :=
  (fun fuel => calculateSize font lineHeight maxFontSize fuel text boundingBox).
#[local] Abbreviation count :=
  (fun fuel => probes font lineHeight maxFontSize fuel text boundingBox).

(** The body of [calculateSize], by the outcome of its fit test. *)
Lemma body_cases fontSize attempt lastFit :
  body fontSize attempt lastFit
  = if (Int32.add attempt 1 =? 0) && fits fontSize
    then Return true (linesAt fontSize) fontSize
    else if fits fontSize
    then
      if fontSize =? lastFit then Return true (linesAt fontSize) fontSize
      else if adjacent fontSize lastFit
      then Return true (linesAt fontSize) (larger lastFit fontSize)
      else Recurse (halfRounded (Int32.add fontSize maxFontSize))
                   (Int32.add attempt 1) fontSize
    else
      if adjacent fontSize lastFit
      then Return true (linesAt fontSize) (larger lastFit fontSize)
      else Recurse (halfRounded (Int32.add fontSize lastFit))
                   (Int32.add attempt 1) lastFit.
Proof.
  unfold calculateSize_body, fitsAt.
  destruct (layout font lineHeight boundingBox fontSize text) as [lines total].
  reflexivity.
Qed.

(** When the body recurses, it does so in one of two ways. *)
Lemma body_recurse fontSize attempt lastFit f' a' l' :
  body fontSize attempt lastFit = Recurse f' a' l' ->
  a' = Int32.add attempt 1
  /\ adjacent fontSize lastFit = false
  /\ ((fits fontSize = true /\ fontSize <> lastFit
       /\ f' = halfRounded (Int32.add fontSize maxFontSize) /\ l' = fontSize)
      \/ (fits fontSize = false
          /\ f' = halfRounded (Int32.add fontSize lastFit) /\ l' = lastFit)).
Proof.
  rewrite body_cases.
  destruct (fits fontSize) eqn:Hfit;
    destruct (Int32.add attempt 1 =? 0); cbn [andb];
    try discriminate;
    destruct (Z.eqb_spec fontSize lastFit); try discriminate;
    destruct (adjacent fontSize lastFit); try discriminate;
    intros [= <- <- <-]; repeat split; try reflexivity;
    (left; repeat split; (reflexivity || assumption)) ||
    (right; repeat split; reflexivity).
Qed.

Lemma search_more_fuel n :
  forall m fontSize attempt lastFit r,
    (n <= m)%nat ->
    search n fontSize attempt lastFit = Some r ->
    search m fontSize attempt lastFit = Some r.
Proof.
  induction n as [|n IH]; intros m f a l r Hle H; [discriminate|].
  destruct m as [|m]; [lia|]. cbn [calculateSize] in *.
  destruct (body f a l); [assumption|]. apply (IH m); [lia|assumption].
Qed.

(** A measure that every recursive call decreases bounds the number of
    probes. *)
Section Potential.

Variable Inv : Z -> Z -> Prop.
Variable Phi : Z -> Z -> Z.

Hypothesis Phi_nonneg : forall f l, Inv f l -> 0 <= Phi f l.
Hypothesis step :
  forall f a l f' a' l',
    Inv f l -> body f a l = Recurse f' a' l' ->
    Inv f' l' /\ Phi f' l' < Phi f l.

Lemma search_bounded :
  forall (k : nat) f a l,
    Inv f l -> Phi f l < Z.of_nat k ->
    exists n r,
      (n <= k)%nat
      /\ search n f a l = Some r
      /\ count n f a l = Some n.
Proof using Phi_nonneg step.
  induction k as [|k IH]; intros f a l HI Hphi.
  - pose proof (Phi_nonneg f l HI). lia.
  - destruct (body f a l) as [ok lines size|f' a' l'] eqn:Hb.
    + exists 1%nat, (ok, lines, size). cbn [calculateSize probes]. rewrite Hb.
      split; [lia|]. split; reflexivity.
    + destruct (step f a l f' a' l' HI Hb) as [HI' Hlt].
      destruct (IH f' a' l' HI' ltac:(lia)) as (n & r & Hn & Hs & Hc).
      exists (S n), r. cbn [calculateSize probes]. rewrite Hb, Hs, Hc.
      split; [lia|]. split; reflexivity.
Qed.

End Potential.

End SearchFacts.

(** ** Logarithms *)

Lemma log2_up_half d : 2 <= d -> Z.log2_up ((d + 1) / 2) < Z.log2_up d.
Proof.
  intros Hd.
  pose proof (Z.log2_up_spec d ltac:(lia)) as [_ Hup].
  pose proof (Z.log2_up_pos d ltac:(lia)) as Hpos.
  set (k := Z.log2_up d) in *.
  assert (2 ^ k = 2 * 2 ^ (k - 1)) as Hk.
  { replace k with (Z.succ (k - 1)) at 1 by lia. apply Z.pow_succ_r. lia. }
  assert ((d + 1) / 2 <= 2 ^ (k - 1)) as Hhalf.
  { enough ((d + 1) / 2 < 2 ^ (k - 1) + 1) by lia.
    apply Z.div_lt_upper_bound; lia. }
  assert (0 < (d + 1) / 2) as Hp by (apply Z.div_str_pos; lia).
  apply (Z.log2_up_le_pow2 _ (k - 1) Hp) in Hhalf. lia.
Qed.

Lemma log2_halve e e' : 1 <= e' -> 2 * e' <= e -> Z.log2 e' < Z.log2 e.
Proof.
  intros He' He.
  pose proof (Z.log2_double e' ltac:(lia)) as Hd.
  pose proof (Z.log2_le_mono (2 * e') e He). lia.
Qed.

(** ** The search without overflow *)

Section BoundedSearch.

Variable font : Font.
Variable lineHeight : float.
Variable maxFontSize : Z.
Variable text : string.
Variable boundingBox : Rectangle.

Hypothesis max_range : 1 <= maxFontSize < 2 ^ 30.

#[local] Abbreviation fits' := (fitsAt font lineHeight text boundingBox).
#[local] Abbreviation body' :=
  (calculateSize_body font lineHeight maxFontSize text boundingBox).
#[local] Abbreviation K := (Z.log2_up maxFontSize + 1).

Lemma step_arith f a l f' a' l' :
  0 <= l <= f -> f <= maxFontSize ->
  body' f a l = Recurse f' a' l' ->
  f - l <> 1
  /\ ((fits' f = true /\ f <> l /\ f' = (f + maxFontSize + 1) / 2 /\ l' = f)
      \/ (fits' f = false /\ f' = (f + l + 1) / 2 /\ l' = l)).
Proof using max_range.
  intros Hl Hf Hb.
  apply body_recurse in Hb as (_ & Hadj & Hcase).
  assert (2 ^ 30 = 1073741824) as E30 by reflexivity.
  unfold adjacent in Hadj.
  rewrite Int32Facts.sub_small in Hadj
    by (unfold Int32.in_range, Int32.min_int, Int32.max_int; lia).
  apply Z.eqb_neq in Hadj. split; [lia|].
  unfold halfRounded in Hcase.
  rewrite !Int32Facts.add_small in Hcase
    by (unfold Int32.in_range, Int32.min_int, Int32.max_int; lia).
  exact Hcase.
Qed.

#[local] Abbreviation searchInv :=
  (searchInv font lineHeight text boundingBox maxFontSize).
#[local] Abbreviation searchPhi := (searchPhi maxFontSize).

Lemma searchPhi_nonneg f l : searchInv f l -> 0 <= searchPhi f l.
Proof.
  intros (Hl & Hf & _). unfold searchPhi.
  pose proof (Z.log2_up_nonneg (f - l)).
  pose proof (Z.log2_up_nonneg maxFontSize). nia.
Qed.

Lemma searchInv_step f a l f' a' l' :
  searchInv f l -> body' f a l = Recurse f' a' l' ->
  searchInv f' l' /\ searchPhi f' l' < searchPhi f l.
Proof using max_range.
  intros (Hl & Hf & H1 & Heq) Hb.
  destruct (step_arith f a l f' a' l' Hl Hf Hb)
    as (Hadj & [(Hfit & Hne & -> & ->)|(Hfit & -> & ->)]).
  - assert (f <= (f + maxFontSize + 1) / 2 <= maxFontSize) as Hmid
        by (Z.div_mod_to_equations; lia).
    split.
    + repeat split; try lia.
      intros E. now rewrite <- E.
    + unfold searchPhi.
      pose proof (Z.log2_up_le_mono ((f + maxFontSize + 1) / 2 - f) maxFontSize
                    ltac:(lia)).
      pose proof (Z.log2_up_nonneg (f - l)).
      pose proof (Z.log2_up_nonneg maxFontSize). nia.
  - assert (l <> f) as Hlf by (intros E; rewrite (Heq E) in Hfit; discriminate).
    assert (l < (f + l + 1) / 2 < f) as Hmid
        by (Z.div_mod_to_equations; lia).
    split.
    + repeat split; try lia.
    + unfold searchPhi.
      replace ((f + l + 1) / 2 - l) with ((f - l + 1) / 2).
      * pose proof (log2_up_half (f - l) ltac:(lia)). lia.
      * replace (f + l + 1) with (f - l + 1 + l * 2) by lia.
        rewrite Z.div_add by lia. lia.
Qed.

(** The same for a monotone fit with threshold [F] below the maximum. *)
Section Monotone.

Variable F : Z.
Hypothesis F_range : 0 <= F < maxFontSize.
Hypothesis mono : fitsUpTo font lineHeight text boundingBox maxFontSize F.

#[local] Abbreviation monoInv := (monoInv maxFontSize F).
#[local] Abbreviation monoPhi := (monoPhi maxFontSize F).

Lemma monoPhi_nonneg f l : monoInv f l -> 0 <= monoPhi f l.
Proof.
  intros _. unfold monoPhi.
  pose proof (Z.log2_up_nonneg (f - l)).
  pose proof (Z.log2_nonneg (F - l + 1)).
  pose proof (Z.log2_up_nonneg maxFontSize). nia.
Qed.

Lemma monoInv_step f a l f' a' l' :
  monoInv f l -> body' f a l = Recurse f' a' l' ->
  monoInv f' l' /\ monoPhi f' l' < monoPhi f l.
Proof using max_range F_range mono.
  intros (Hl & Hlf & Hf & HJ) Hb.
  destruct (step_arith f a l f' a' l' ltac:(lia) Hf Hb)
    as (Hadj & [(Hfit & Hne & -> & ->)|(Hfit & -> & ->)]).
  - apply (mono f ltac:(lia)) in Hfit.
    assert (f < (f + maxFontSize + 1) / 2 <= maxFontSize) as Hmid
        by (Z.div_mod_to_equations; lia).
    assert (maxFontSize - f <= 2 * ((f + maxFontSize + 1) / 2 - f)) as Hgap.
    { pose proof (Z.div_mod (f + maxFontSize + 1) 2 ltac:(lia)).
      pose proof (Z.mod_pos_bound (f + maxFontSize + 1) 2 ltac:(lia)). lia. }
    split.
    + repeat split; lia.
    + unfold monoPhi.
      pose proof (log2_halve (F - l + 1) (F - f + 1) ltac:(lia) ltac:(lia)).
      pose proof (Z.log2_up_le_mono ((f + maxFontSize + 1) / 2 - f) maxFontSize
                    ltac:(lia)).
      pose proof (Z.log2_up_nonneg (f - l)).
      pose proof (Z.log2_up_nonneg maxFontSize). nia.
  - assert (F < f) as HFf.
    { destruct (Z_lt_le_dec F f) as [|Hle]; [assumption|].
      apply (mono f ltac:(lia)) in Hle. congruence. }
    assert (l < (f + l + 1) / 2 < f) as Hmid
        by (Z.div_mod_to_equations; lia).
    assert (f - l <= 2 * ((f + l + 1) / 2 - l)) as Hgap.
    { pose proof (Z.div_mod (f + l + 1) 2 ltac:(lia)).
      pose proof (Z.mod_pos_bound (f + l + 1) 2 ltac:(lia)). lia. }
    split.
    + repeat split; lia.
    + unfold monoPhi.
      replace ((f + l + 1) / 2 - l) with ((f - l + 1) / 2).
      * pose proof (log2_up_half (f - l) ltac:(lia)). lia.
      * replace (f + l + 1) with (f - l + 1 + l * 2) by lia.
        rewrite Z.div_add by lia. lia.
Qed.

End Monotone.

End BoundedSearch.

(** ** Claims about the size search *)

Lemma probes_more_fuel font lineHeight maxFontSize text boundingBox n :
  forall m fontSize attempt lastFit c,
    (n <= m)%nat ->
    probes font lineHeight maxFontSize n text boundingBox fontSize attempt lastFit
    = Some c ->
    probes font lineHeight maxFontSize m text boundingBox fontSize attempt lastFit
    = Some c.
Proof.
  induction n as [|n IH]; intros m f a l c Hle H; [discriminate|].
  destruct m as [|m]; [lia|]. cbn [probes] in *.
  destruct (calculateSize_body font lineHeight maxFontSize text boundingBox f a l);
    [assumption|].
  destruct (probes font lineHeight maxFontSize n text boundingBox
              newFontSize attempt lastFit) as [c'|] eqn:E; [|discriminate].
  rewrite (IH m _ _ _ c' ltac:(lia) E). assumption.
Qed.

(** C1, what the code does.  With a maximum of 4 and a box 2 high, size 2
    fits and size 3 does not, and the search returns size 3 with the layout
    of size 3, whose height 3 exceeds the box: the branch for a size that
    does not fit returns the larger of that size and the last fit. *)
Theorem search_returns_unfitting_size :
  findSize monoFont 0%float 4 3 "a" (mkRectangle 0 0 100 2)
  = Some (true, [mkLine ["a"%string] 0 0 6 3], 3)
  /\ fitsAt monoFont 0%float "a" (mkRectangle 0 0 100 2) 2 = true
  /\ fitsAt monoFont 0%float "a" (mkRectangle 0 0 100 2) 3 = false
  /\ snd (layout monoFont 0%float (mkRectangle 0 0 100 2) 3 "a") = 3.
Proof. repeat split; vm_compute; reflexivity. Qed.

(** C2, as stated, fails: with the largest [int32] as maximum and a box
    2^30 high, [fontSize + c.maxFontSize] overflows, the sizes probed
    settle into a cycle of two, and no call returns within 2^31 probes.
    Without any overflow the count is not logarithmic either: a maximum of
    2^20 with a box 1023 high takes 156 probes. *)
Lemma search_overflow_cycle :
  exists bound,
    bound = 2 ^ 31
    /\ probes monoFont 0%float (2 ^ 20) 156 "a"
              (mkRectangle 0 0 2147483647 1023) (2 ^ 20) (-1) 0 = Some 156%nat
    /\ forall fuel,
        Z.of_nat fuel <= bound ->
        findSize monoFont 0%float 2147483647 fuel "a"
                 (mkRectangle 0 0 2147483647 1073741824) = None.
Proof.
  exists (2 ^ 31). split; [reflexivity|]. split; [vm_compute; reflexivity|].
  set (box := mkRectangle 0 0 2147483647 1073741824).
  set (go := fun fuel => calculateSize monoFont 0%float 2147483647 fuel "a" box).
  (* The two calls of the cycle, at any attempt number that is not -1. *)
  assert (forall a, 0 <= a < 2 ^ 31 - 1 ->
            calculateSize_body monoFont 0%float 2147483647 "a" box
                               715827882 a (-715827883)
            = Recurse (-715827883) (a + 1) 715827882) as HA.
  { intros a Ha. rewrite body_cases.
    rewrite (Int32Facts.add_small a 1)
      by (unfold Int32.in_range, Int32.min_int, Int32.max_int; lia).
    destruct (Z.eqb_spec (a + 1) 0); [lia|]. reflexivity. }
  assert (forall a, 0 <= a < 2 ^ 31 - 1 ->
            calculateSize_body monoFont 0%float 2147483647 "a" box
                               (-715827883) a 715827882
            = Recurse 715827882 (a + 1) (-715827883)) as HB.
  { intros a Ha. rewrite body_cases.
    rewrite (Int32Facts.add_small a 1)
      by (unfold Int32.in_range, Int32.min_int, Int32.max_int; lia).
    destruct (Z.eqb_spec (a + 1) 0); [lia|]. reflexivity. }
  assert (forall k a, 0 <= a -> a + Z.of_nat k <= 2 ^ 31 - 1 ->
            go k 715827882 a (-715827883) = None
            /\ go k (-715827883) a 715827882 = None) as Hcycle.
  { induction k as [|k IH]; intros a Ha Hk; [split; reflexivity|].
    destruct (IH (a + 1) ltac:(lia) ltac:(lia)) as [IH1 IH2].
    unfold go in *. cbn [calculateSize].
    rewrite HA, HB by lia. split; assumption. }
  intros fuel Hfuel. unfold findSize.
  (* The 33 calls before the cycle. *)
  destruct (Nat.le_gt_cases fuel 33) as [Hsmall|Hbig].
  - do 34 (destruct fuel as [|fuel]; [vm_compute; reflexivity|]). lia.
  - replace fuel with (33 + (fuel - 33))%nat by lia.
    set (k := (fuel - 33)%nat).
    assert (forall m,
              calculateSize monoFont 0%float 2147483647 (33 + m) "a" box
                            2147483647 (-1) 0
              = go m 715827882 32 (-715827883)) as Hprefix.
    { intros m. do 33 (rewrite Nat.add_succ_l; cbn [calculateSize];
                       match goal with
                       | |- context [calculateSize_body ?f ?h ?M ?t ?b ?x ?a ?l] =>
                           let r := eval vm_compute in
                                      (calculateSize_body f h M t b x a l) in
                           change (calculateSize_body f h M t b x a l) with r
                       end; cbv iota).
      reflexivity. }
    rewrite Hprefix. apply Hcycle; lia.
Qed.

(** C2, amended.  For a maximum between 1 and 2^30 - 1 (so that no sum of
    two sizes overflows), the search returns, after a number of probes that
    is at most [(maxFontSize + 1) * (ceil(log2 maxFontSize) + 1)] and, when
    the fit is monotone in the size, at most
    [(ceil(log2 maxFontSize) + 1)^2]. *)
Theorem search_terminates font lineHeight maxFontSize text boundingBox :
  1 <= maxFontSize < 2 ^ 30 ->
  exists n r,
    findSize font lineHeight maxFontSize n text boundingBox = Some r
    /\ probes font lineHeight maxFontSize n text boundingBox maxFontSize (-1) 0
       = Some n
    /\ Z.of_nat n <= (maxFontSize + 1) * (Z.log2_up maxFontSize + 1)
    /\ forall F,
        fitsUpTo font lineHeight text boundingBox maxFontSize F ->
        Z.of_nat n <= (Z.log2_up maxFontSize + 1) ^ 2.
Proof.
  intros HM.
  pose proof (Z.log2_up_nonneg maxFontSize) as HK.
  set (K := Z.log2_up maxFontSize + 1) in *.
  assert (searchInv font lineHeight text boundingBox maxFontSize maxFontSize 0)
    as Hinv by (repeat split; lia).
  destruct (search_bounded font lineHeight maxFontSize text boundingBox
              (searchInv font lineHeight text boundingBox maxFontSize)
              (searchPhi maxFontSize)
              (searchPhi_nonneg font lineHeight maxFontSize text boundingBox)
              (searchInv_step font lineHeight maxFontSize text boundingBox HM)
              (Z.to_nat ((maxFontSize + 1) * K)) maxFontSize (-1) 0 Hinv)
    as (n & r & Hn & Hs & Hc).
  { unfold searchPhi. fold K. rewrite Z.sub_0_r. nia. }
  exists n, r. split; [exact Hs|]. split; [exact Hc|]. split; [nia|].
  intros F Hmono.
  destruct (Z_lt_le_dec F maxFontSize) as [HF|HF].
  - destruct (Z_lt_le_dec F 0) as [Hneg|Hpos].
    + (* Nothing fits: the threshold may as well be 0. *)
      assert (fitsUpTo font lineHeight text boundingBox maxFontSize 0) as Hmono0.
      { intros s Hs'. specialize (Hmono s Hs'). split; intros; [|lia].
        apply Hmono in H. lia. }
      destruct (search_bounded font lineHeight maxFontSize text boundingBox
                  (monoInv maxFontSize 0) (monoPhi maxFontSize 0)
                  (monoPhi_nonneg maxFontSize 0)
                  (monoInv_step font lineHeight maxFontSize text boundingBox HM 0
                                ltac:(lia) Hmono0)
                  (Z.to_nat (K ^ 2)) maxFontSize (-1) 0)
        as (n' & r' & Hn' & _ & Hc').
      * repeat split; lia.
      * unfold monoPhi. fold K. change (Z.log2 (0 - 0 + 1)) with 0.
        rewrite Z.sub_0_r. nia.
      * pose proof (probes_more_fuel _ _ _ _ _ n (Nat.max n n') _ _ _ _
                      ltac:(lia) Hc) as E1.
        pose proof (probes_more_fuel _ _ _ _ _ n' (Nat.max n n') _ _ _ _
                      ltac:(lia) Hc') as E2.
        rewrite E1 in E2. injection E2 as E2. lia.
    + destruct (search_bounded font lineHeight maxFontSize text boundingBox
                  (monoInv maxFontSize F) (monoPhi maxFontSize F)
                  (monoPhi_nonneg maxFontSize F)
                  (monoInv_step font lineHeight maxFontSize text boundingBox HM F
                                ltac:(lia) Hmono)
                  (Z.to_nat (K ^ 2)) maxFontSize (-1) 0)
        as (n' & r' & Hn' & _ & Hc').
      * repeat split; lia.
      * unfold monoPhi. fold K. rewrite !Z.sub_0_r.
        pose proof (Z.log2_le_mono (F + 1) maxFontSize ltac:(lia)).
        pose proof (Z.le_log2_log2_up maxFontSize).
        pose proof (Z.log2_nonneg (F + 1)). nia.
      * pose proof (probes_more_fuel _ _ _ _ _ n (Nat.max n n') _ _ _ _
                      ltac:(lia) Hc) as E1.
        pose proof (probes_more_fuel _ _ _ _ _ n' (Nat.max n n') _ _ _ _
                      ltac:(lia) Hc') as E2.
        rewrite E1 in E2. injection E2 as E2. lia.
  - (* The maximum itself fits: one probe. *)
    assert (fitsAt font lineHeight text boundingBox maxFontSize = true) as Hfit
        by (apply (Hmono maxFontSize); lia).
    assert (probes font lineHeight maxFontSize 1 text boundingBox maxFontSize (-1) 0
            = Some 1%nat) as H1.
    { cbn [probes]. rewrite body_cases, Hfit. reflexivity. }
    pose proof (probes_more_fuel _ _ _ _ _ n (Nat.max n 1) _ _ _ _
                  ltac:(lia) Hc) as E1.
    pose proof (probes_more_fuel _ _ _ _ _ 1%nat (Nat.max n 1) _ _ _ _
                  ltac:(lia) H1) as E2.
    rewrite E1 in E2. injection E2 as E2. nia.
Qed.

(** The text "a" with a maximum of 40 and a box 25 high: the sizes that
    fit are those up to 25. *)
Lemma fitsUpTo_example :
  fitsUpTo monoFont 0%float "a" (mkRectangle 0 0 100 25) 40 25.
Proof.
  intros s Hs.
  assert (forallb (fun s => Bool.eqb (fitsAt monoFont 0%float "a"
                                              (mkRectangle 0 0 100 25) s)
                                     (s <=? 25))
                  (map Z.of_nat (seq 1 40)) = true) as Hall
      by (vm_compute; reflexivity).
  rewrite forallb_forall in Hall.
  specialize (Hall s).
  rewrite Bool.eqb_true_iff in Hall. rewrite Hall.
  - apply Z.leb_le.
  - apply in_map_iff. exists (Z.to_nat s). split; [lia|]. apply in_seq. lia.
Qed.

Lemma search_terminates_witness :
  exists n r,
    findSize monoFont 0%float 40 n "a" (mkRectangle 0 0 100 25) = Some r
    /\ probes monoFont 0%float 40 n "a" (mkRectangle 0 0 100 25) 40 (-1) 0
       = Some n
    /\ Z.of_nat n <= (40 + 1) * (Z.log2_up 40 + 1)
    /\ Z.of_nat n <= (Z.log2_up 40 + 1) ^ 2.
Proof.
  destruct (search_terminates monoFont 0%float 40 "a" (mkRectangle 0 0 100 25))
    as (n & r & Hs & Hc & Hn & Hmono).
  - vm_compute. split; [discriminate|reflexivity].
  - exists n, r. repeat split; try assumption.
    apply (Hmono 25), fitsUpTo_example.
Defined.


(** ** Claims about the context and the renderer *)

Section RenderFacts.

Variables (Image ImgRect File ExtError : Type).
Variable Bounds : Image -> ImgRect.
Variable NewRGBA : ImgRect -> Image.
Variable NewUniform : Color -> Image.
Variable Draw : Image -> ImgRect -> Image -> Image.
Variable os_Open : string -> File + ExtError.
Variable png_Decode : File -> Image + ExtError.
Variable jpeg_Decode : File -> Image + ExtError.
Variable ioutil_ReadFile : string -> string + ExtError.
Variable freetype_ParseFont : string -> option Font * option ExtError.
Variable strings_ToLower : string -> string.
Variable DrawString :
  FreetypeContext Image ImgRect ->
  Image -> string -> Z * Z -> Image * option ExtError.

#[local] Abbreviation writeText :=
  (WriteText Image ImgRect ExtError Bounds NewRGBA Draw DrawString).
#[local] Abbreviation draw :=
  (drawLines Image ImgRect ExtError Bounds NewRGBA Draw DrawString).
#[local] Abbreviation setSrcPath :=
  (SetSrcPath Image ImgRect File ExtError Bounds NewRGBA os_Open png_Decode
              jpeg_Decode strings_ToLower).


(** C8, amended.  For a path that [os.Open] opens and whose lower-cased
    extension is none of ".png", ".jpg", ".jpeg", [SetSrcPath] returns the
    [UnsupportedError] of that extension, whose message ends with the
    extension, and leaves the context and the store as they were. *)
Theorem unsupported_extension path (w : World Image) imageRaw :
  os_Open path = inl imageRaw ->
  strings_ToLower (Filepath.Ext path) <> ".png"%string ->
  strings_ToLower (Filepath.Ext path) <> ".jpg"%string ->
  strings_ToLower (Filepath.Ext path) <> ".jpeg"%string ->
  setSrcPath path w
  = Returns (w, Some (UnsupportedError (strings_ToLower (Filepath.Ext path))))
  /\ UnsupportedError_Error (strings_ToLower (Filepath.Ext path))
     = String.append "Image format not supported: "
                     (strings_ToLower (Filepath.Ext path)).
Proof using Type.
  intros Hopen Hpng Hjpg Hjpeg. split; [|reflexivity].
  unfold SetSrcPath. rewrite Hopen.
  apply String.eqb_neq in Hpng, Hjpg, Hjpeg.
  rewrite Hpng, Hjpg, Hjpeg. reflexivity.
Qed.

(** C9 (render failure).  When the lines before one are drawn without
    error and drawing that one fails, [WriteText] returns that error and a
    new buffer, not an address of the store before the call, that holds
    the copy of the source image with the lines before and what the failed
    call drew; the lines after are not drawn and the source image is
    unchanged. *)
Theorem render_failure (w : World Image) fuel f text boundingBox
    ok lines size s srcImage before line after canvas canvas' err :
  font Image (ctx Image w) = Some f ->
  findSize f (lineHeight Image (ctx Image w)) (maxFontSize Image (ctx Image w))
           fuel text boundingBox = Some (ok, lines, size) ->
  src Image (ctx Image w) = Some s ->
  heap Image w !! s = Some srcImage ->
  lines = before ++ line :: after ->
  let rbga := alloc Image (heap Image w) in
  let imageContext := imageContextOf Image ImgRect Bounds (ctx Image w) rbga size srcImage in
  drawLoop Image ImgRect ExtError DrawString imageContext
           (canvasOf Image ImgRect Bounds NewRGBA Draw srcImage) before
  = (canvas, None) ->
  DrawString imageContext canvas
             (Strings.Join (Words line) (String space EmptyString))
             (linePoint line)
  = (canvas', Some err) ->
  writeText fuel text boundingBox w
  = Returns (mkWorld Image (<[rbga := canvas']> (heap Image w)) (ctx Image w),
             (Some (External err), rbga))
  /\ heap Image w !! rbga = None
  /\ <[rbga := canvas']> (heap Image w) !! s = Some srcImage.
Proof using Type.
  intros Hfont Hsize Hsrc Hs -> rbga imageContext Hbefore Hfail.
  assert (heap Image w !! rbga = None) as Hfresh.
  { apply not_elem_of_dom. apply is_fresh. }
  assert (forall ls c,
            drawLoop Image ImgRect ExtError DrawString imageContext c ls
            = (canvas, None) ->
            drawLoop Image ImgRect ExtError DrawString imageContext c
                     (ls ++ line :: after)
            = (canvas', Some (External err))) as Hloop.
  { induction ls as [|l ls IH]; intros c Hc; cbn [drawLoop app] in *.
    - injection Hc as ->. now rewrite Hfail.
    - destruct (DrawString imageContext c _ (linePoint l)) as [c1 [e|]];
        [discriminate|]. now apply IH. }
  split; [|split].
  - unfold WriteText. rewrite Hfont, Hsize. unfold drawLines.
    rewrite Hsrc, Hs. fold rbga. fold imageContext.
    now rewrite (Hloop before _ Hbefore).
  - exact Hfresh.
  - rewrite lookup_insert_ne; [assumption|].
    intros E. rewrite E in Hfresh. congruence.
Qed.

End RenderFacts.


(** C8, as stated, fails for a path that cannot be opened: [SetSrcPath]
    returns the error of [os.Open] before it looks at the extension. *)
Lemma missing_file_is_not_unsupported :
  Test.ToLower (Filepath.Ext "image.gif") = ".gif"%string
  /\ SetSrcPath Test.Image unit unit string Test.Bounds Test.NewRGBA
                Test.os_Open Test.png_Decode Test.jpeg_Decode Test.ToLower
                "image.gif" Test.world0
     = Returns (Test.world0, Some (External "no such file or directory"%string)).
Proof. split; reflexivity. Qed.

Lemma unsupported_extension_witness :
  SetSrcPath Test.Image unit unit string Test.Bounds Test.NewRGBA
             Test.os_Open Test.png_Decode Test.jpeg_Decode Test.ToLower
             "photo.gif" Test.world0
  = Returns (Test.world0,
             Some (UnsupportedError (Test.ToLower (Filepath.Ext "photo.gif"))))
  /\ UnsupportedError_Error (Test.ToLower (Filepath.Ext "photo.gif"))
     = String.append "Image format not supported: "
                     (Test.ToLower (Filepath.Ext "photo.gif")).
Proof.
  apply (unsupported_extension Test.Image unit unit string Test.Bounds
           Test.NewRGBA Test.os_Open Test.png_Decode Test.jpeg_Decode
           Test.ToLower "photo.gif" Test.world0 tt).
  - reflexivity.
  - vm_compute. discriminate.
  - vm_compute. discriminate.
  - vm_compute. discriminate.
Defined.

(** Three lines, the second of which cannot be drawn. *)
Lemma render_failure_witness :
  WriteText Test.Image unit string Test.Bounds Test.NewRGBA Test.Draw
            Test.DrawString 1
            (String "o" (String "k" (String newline
               (String "!" (String "b" (String newline "z"))))))
            (mkRectangle 5 9 1000 200) (Test.world1 40)
  = Returns
      (mkWorld Test.Image
         (<[2%nat := [("photo"%string, (0, 0)); ("ok"%string, (1280, 2304));
                      ("!b"%string, (1280, 12544))]]>
            (heap Test.Image (Test.world1 40)))
         (ctx Test.Image (Test.world1 40)),
       (Some (External "glyph not drawn"%string), 2%nat))
  /\ heap Test.Image (Test.world1 40) !! 2%nat = None
  /\ <[2%nat := [("photo"%string, (0, 0)); ("ok"%string, (1280, 2304));
                 ("!b"%string, (1280, 12544))]]>
       (heap Test.Image (Test.world1 40)) !! 0%nat
     = Some [("photo"%string, (0, 0))].
Proof.
  exact (render_failure Test.Image unit string Test.Bounds Test.NewRGBA Test.Draw
           Test.DrawString (Test.world1 40) 1 monoFont
           (String "o" (String "k" (String newline
              (String "!" (String "b" (String newline "z"))))))
           (mkRectangle 5 9 1000 200)
           true
           [mkLine ["ok"%string] 5 9 120 40; mkLine ["!b"%string] 5 49 120 40;
            mkLine ["z"%string] 5 89 80 40]
           40 0%nat [("photo"%string, (0, 0))]
           [mkLine ["ok"%string] 5 9 120 40]
           (mkLine ["!b"%string] 5 49 120 40)
           [mkLine ["z"%string] 5 89 80 40]
           [("photo"%string, (0, 0)); ("ok"%string, (1280, 2304))]
           [("photo"%string, (0, 0)); ("ok"%string, (1280, 2304));
            ("!b"%string, (1280, 12544))]
           "glyph not drawn"%string
           eq_refl eq_refl eq_refl eq_refl eq_refl eq_refl eq_refl).
Defined.

(** ** The fill buffer does not reach the output *)

Section FillFacts.

Variables (Image ImgRect File ExtError : Type).
Variable Bounds : Image -> ImgRect.
Variable NewRGBA : ImgRect -> Image.
Variable NewUniform : Color -> Image.
Variable Draw : Image -> ImgRect -> Image -> Image.
Variable os_Open : string -> File + ExtError.
Variable png_Decode : File -> Image + ExtError.
Variable jpeg_Decode : File -> Image + ExtError.
Variable ioutil_ReadFile : string -> string + ExtError.
Variable freetype_ParseFont : string -> option Font * option ExtError.
Variable strings_ToLower : string -> string.
Variable DrawString :
  FreetypeContext Image ImgRect ->
  Image -> string -> Z * Z -> Image * option ExtError.

#[local] Abbreviation writeText' :=
  (WriteText Image ImgRect ExtError Bounds NewRGBA Draw DrawString).
#[local] Abbreviation perform' :=
  (perform Image ImgRect File ExtError Bounds NewRGBA NewUniform Draw os_Open
           png_Decode jpeg_Decode ioutil_ReadFile freetype_ParseFont
           strings_ToLower).
#[local] Abbreviation performAll' :=
  (performAll Image ImgRect File ExtError Bounds NewRGBA NewUniform Draw os_Open
              png_Decode jpeg_Decode ioutil_ReadFile freetype_ParseFont
              strings_ToLower).

Variable D : gset loc.

Lemma sameButFill_refl (w : World Image) :
  D ⊆ dom (heap Image w) ->
  src Image (ctx Image w) = None -> fontBackground Image (ctx Image w) = None ->
  sameButFill D ∅ w w.
Proof.
  intros HD Hs Hf. repeat split; try done; try set_solver; congruence.
Qed.

(** A change of the context that keeps its two images keeps the relation. *)
Lemma sameButFill_ctx S (w1 w2 : World Image) (c : Context Image) :
  sameButFill D S w1 w2 ->
  src Image c = src Image (ctx Image w1) ->
  fontBackground Image c = fontBackground Image (ctx Image w1) ->
  sameButFill D S (mkWorld Image (heap Image w1) c) (mkWorld Image (heap Image w2) c).
Proof.
  intros (Hc & Hd & Ha & HS & HD & Hdisj & Hs & Hf) Es Ef.
  repeat split; cbn [heap ctx]; try assumption.
  - intros s E. apply Hs. congruence.
  - intros fb E. apply Hf. congruence.
Qed.

(** Allocating the same buffer in both worlds as the new [fontBackground],
    for a source image [s] that is not a fill buffer. *)
Lemma sameButFill_alloc S (h1 h2 : gmap loc Image) c1 c2 (c : Context Image)
    s img :
  sameButFill D S (mkWorld Image h1 c1) (mkWorld Image h2 c2) ->
  s ∈ dom h1 -> s ∉ S ->
  src Image c = Some s ->
  fontBackground Image c = Some (alloc Image h1) ->
  sameButFill D (S ∪ {[alloc Image h1]})
    (mkWorld Image (<[alloc Image h1 := img]> h1) c)
    (mkWorld Image (<[alloc Image h1 := img]> h2) c).
Proof.
  intros (Hc & Hd & Ha & HS & HD & Hdisj & Hs & Hf) Hin HnS Es Ef.
  cbn [heap ctx] in *.
  assert (alloc Image h1 ∉ dom h1) as Hfresh by apply is_fresh.
  repeat split; cbn [heap ctx].
  - rewrite !dom_insert_L. now rewrite Hd.
  - intros l Hl. destruct (decide (l = alloc Image h1)) as [->|Hne].
    + now rewrite !lookup_insert_eq.
    + rewrite !lookup_insert_ne by done. apply Ha. set_solver.
  - rewrite dom_insert_L. set_solver.
  - rewrite dom_insert_L. set_solver.
  - set_solver.
  - intros s' E. rewrite Es in E. injection E as <-. set_solver.
  - intros fb E. rewrite Ef in E. injection E as <-. set_solver.
Qed.

Lemma alloc_same (h1 h2 : gmap loc Image) :
  dom h1 = dom h2 -> alloc Image h1 = alloc Image h2.
Proof. unfold alloc. now intros ->. Qed.

(** Any call but [SetFontImage] acts alike on related worlds. *)
Lemma perform_related S k (w1 w2 w1' : World Image) :
  sameButFill D S w1 w2 ->
  (forall l, callImage k = Some l -> l ∈ D) ->
  isSetFontImage k = false ->
  perform' k w1 = Returns w1' ->
  exists S' w2', perform' k w2 = Returns w2' /\ sameButFill D S' w1' w2'.
Proof.
  intros HR Hk Hno Hp.
  pose proof HR as (Hc & Hd & Ha & HS & HD & Hdisj & Hs & Hf).
  destruct w1 as [h1 c1], w2 as [h2 c2]. cbn [heap ctx] in *. subst c2.
  destruct k as [img|path|path|f|size|d|height|color|bg];
    cbn [perform isSetFontImage] in *; try discriminate.
  - (* SetSrc *)
    unfold SetSrc in *. cbn [heap ctx] in *.
    assert (img ∈ D) as HimgD by (apply Hk; reflexivity).
    assert (img ∉ S) as HimgS by set_solver.
    rewrite <- (Ha img HimgS).
    destruct (h1 !! img) as [i|] eqn:Ei; [|discriminate].
    injection Hp as <-.
    rewrite <- (alloc_same h1 h2 Hd).
    do 2 eexists. split; [reflexivity|].
    apply (sameButFill_alloc S h1 h2 c1 c1 _ img); try done.
    now apply elem_of_dom_2 in Ei.
  - (* SetSrcPath *)
    unfold SetSrcPath in *. cbn [heap ctx] in *.
    destruct (os_Open path) as [imageRaw|err];
      [|injection Hp as <-; eexists S, _; split; [reflexivity|exact HR]].
    destruct (if String.eqb (strings_ToLower (Filepath.Ext path)) ".png"
              then inl (png_Decode imageRaw)
              else if String.eqb (strings_ToLower (Filepath.Ext path)) ".jpg"
                      || String.eqb (strings_ToLower (Filepath.Ext path)) ".jpeg"
                   then inl (jpeg_Decode imageRaw)
                   else inr (UnsupportedError (strings_ToLower (Filepath.Ext path))))
      as [[imageDecoded|err]|unsupported].
    + cbn [exec_bind fst] in *. injection Hp as <-.
      rewrite <- (alloc_same h1 h2 Hd).
      assert (alloc Image (<[alloc Image h1 := imageDecoded]> h1)
              = alloc Image (<[alloc Image h1 := imageDecoded]> h2)) as <-.
      { apply alloc_same. rewrite !dom_insert_L. now rewrite Hd. }
      do 2 eexists. split; [reflexivity|].
      assert (alloc Image h1 ∉ dom h1) as Hfresh by apply is_fresh.
      apply (sameButFill_alloc S _ _ c1 c1 _ (alloc Image h1)); try done.
      * repeat split; cbn [heap ctx]; try done.
        -- rewrite !dom_insert_L. now rewrite Hd.
        -- intros l Hl. destruct (decide (l = alloc Image h1)) as [->|Hne].
           ++ now rewrite !lookup_insert_eq.
           ++ rewrite !lookup_insert_ne by done. now apply Ha.
        -- rewrite dom_insert_L. set_solver.
        -- rewrite dom_insert_L. set_solver.
      * rewrite dom_insert_L. set_solver.
      * set_solver.
    + cbn [exec_bind fst] in *. injection Hp as <-.
      eexists S, _. split; [reflexivity|exact HR].
    + cbn [exec_bind fst] in *. injection Hp as <-.
      eexists S, _. split; [reflexivity|exact HR].
  - (* SetFontPath *)
    unfold SetFontPath in *. cbn [heap ctx] in *.
    destruct (ioutil_ReadFile path) as [fontRaw|err].
    + destruct (freetype_ParseFont fontRaw) as [f err].
      cbn [exec_bind fst] in *. injection Hp as <-.
      eexists S, _. split; [reflexivity|].
      now apply (sameButFill_ctx S (mkWorld Image h1 c1) (mkWorld Image h2 c1)).
    + cbn [exec_bind fst] in *. injection Hp as <-.
      eexists S, _. split; [reflexivity|exact HR].
  - unfold SetFont in *. injection Hp as <-. eexists S, _. split; [reflexivity|].
    now apply (sameButFill_ctx S (mkWorld Image h1 c1) (mkWorld Image h2 c1)).
  - unfold SetMaxFontSize in *. injection Hp as <-.
    eexists S, _. split; [reflexivity|].
    now apply (sameButFill_ctx S (mkWorld Image h1 c1) (mkWorld Image h2 c1)).
  - unfold SetDPI in *. injection Hp as <-.
    eexists S, _. split; [reflexivity|].
    now apply (sameButFill_ctx S (mkWorld Image h1 c1) (mkWorld Image h2 c1)).
  - unfold SetLineHeight in *. injection Hp as <-.
    eexists S, _. split; [reflexivity|].
    now apply (sameButFill_ctx S (mkWorld Image h1 c1) (mkWorld Image h2 c1)).
  - unfold SetFontColor in *. injection Hp as <-.
    eexists S, _. split; [reflexivity|].
    now apply (sameButFill_ctx S (mkWorld Image h1 c1) (mkWorld Image h2 c1)).
Qed.

(** [SetFontImage] keeps a world related to the worlds it was related to. *)
Lemma SetFontImage_related S bg (w1 w2 w1' : World Image) :
  sameButFill D S w1 w2 ->
  SetFontImage Image ImgRect Bounds Draw bg w1 = Returns w1' ->
  sameButFill D S w1' w2.
Proof.
  intros (Hc & Hd & Ha & HS & HD & Hdisj & Hs & Hf) Hp.
  unfold SetFontImage in Hp.
  destruct (fontBackground Image (ctx Image w1)) as [fb|] eqn:Efb; [|discriminate].
  destruct (heap Image w1 !! fb) as [dst|] eqn:Edst; [|discriminate].
  destruct (heap Image w1 !! bg) as [b|]; [|discriminate].
  injection Hp as <-. cbn [heap ctx].
  assert (fb ∈ dom (heap Image w1)) as Hin by now apply elem_of_dom_2 in Edst.
  assert (fb ∈ S) as HfbS by now apply Hf.
  repeat split; cbn [heap ctx]; try done.
  - rewrite dom_insert_L. set_solver.
  - intros l Hl. rewrite lookup_insert_ne by set_solver. now apply Ha.
  - rewrite dom_insert_L. set_solver.
  - rewrite dom_insert_L. set_solver.
  - intros fb' E. apply Hf. congruence.
Qed.

(** A run is related to the run of its calls other than [SetFontImage]. *)
Lemma performAll_related ks :
  forall S (w1 w2 w1' : World Image),
    sameButFill D S w1 w2 ->
    callsWithin D ks ->
    performAll' ks w1 = Returns w1' ->
    exists S' w2',
      performAll' (withoutSetFontImage ks) w2 = Returns w2'
      /\ sameButFill D S' w1' w2'.
Proof.
  induction ks as [|k ks IH]; intros S w1 w2 w1' HR Hks Hp.
  - injection Hp as <-. exists S, w2. split; [reflexivity|assumption].
  - apply Forall_cons in Hks as [Hk Hks].
    cbn [performAll] in Hp.
    destruct (perform' k w1) as [w1m| |] eqn:Ek; try discriminate.
    cbn [exec_bind] in Hp. cbn [withoutSetFontImage List.filter].
    destruct (isSetFontImage k) eqn:Efill; cbn [negb].
    + destruct k; try discriminate. cbn [perform] in Ek.
      apply (IH S w1m w2 w1'); try assumption.
      now apply (SetFontImage_related S backgroundImage w1 w2).
    + destruct (perform_related S k w1 w2 w1m HR Hk Efill Ek)
        as (S' & w2m & Ek2 & HR').
      cbn [performAll]. rewrite Ek2. cbn [exec_bind].
      now apply (IH S' w1m w2m w1').
Qed.

(** Related worlds give [WriteText] the same output. *)
Lemma WriteText_related S (w1 w2 : World Image) fuel text boundingBox :
  sameButFill D S w1 w2 ->
  observed Image ExtError (writeText' fuel text boundingBox w1)
  = observed Image ExtError (writeText' fuel text boundingBox w2).
Proof.
  intros (Hc & Hd & Ha & HS & HD & Hdisj & Hs & Hf).
  unfold WriteText. rewrite <- Hc.
  destruct (font Image (ctx Image w1)) as [f|]; [|reflexivity].
  destruct (findSize f _ _ fuel text boundingBox) as [[[ok lines] size]|];
    [|reflexivity].
  unfold drawLines. rewrite <- Hc.
  destruct (src Image (ctx Image w1)) as [s|] eqn:Es; [|reflexivity].
  rewrite <- (Ha s (Hs s eq_refl)).
  destruct (heap Image w1 !! s) as [srcImage|]; [|reflexivity].
  rewrite <- (alloc_same _ _ Hd).
  destruct (drawLoop Image ImgRect ExtError DrawString _ _ lines) as [canvas err].
  cbn [observed exec_bind heap]. now rewrite !lookup_insert_eq.
Qed.

(** C10 (the fill image does not reach the output).  Two sequences of
    configuration calls on a new context that differ only in their calls of
    [SetFontImage] (their arguments, or whether they occur), both run to
    completion on the caller's images, give [WriteText] the same error and
    the same image. *)
Theorem fill_image_noninterference (h0 : gmap loc Image) ks1 ks2
    (w1 w2 : World Image) fuel text boundingBox :
  D = dom h0 ->
  callsWithin D ks1 -> callsWithin D ks2 ->
  withoutSetFontImage ks1 = withoutSetFontImage ks2 ->
  performAll' ks1 (mkWorld Image h0 (NewContext Image)) = Returns w1 ->
  performAll' ks2 (mkWorld Image h0 (NewContext Image)) = Returns w2 ->
  observed Image ExtError (writeText' fuel text boundingBox w1)
  = observed Image ExtError (writeText' fuel text boundingBox w2).
Proof.
  intros HD Hk1 Hk2 Heq Hp1 Hp2.
  assert (sameButFill D ∅ (mkWorld Image h0 (NewContext Image))
                      (mkWorld Image h0 (NewContext Image))) as H0.
  { apply sameButFill_refl; cbn [heap ctx]; [set_solver|reflexivity..]. }
  destruct (performAll_related ks1 ∅ _ _ w1 H0 Hk1 Hp1) as (S1 & u1 & Hu1 & HR1).
  destruct (performAll_related ks2 ∅ _ _ w2 H0 Hk2 Hp2) as (S2 & u2 & Hu2 & HR2).
  rewrite Heq, Hu2 in Hu1. injection Hu1 as <-.
  rewrite (WriteText_related S1 w1 u2 fuel text boundingBox HR1).
  now rewrite (WriteText_related S2 w2 u2 fuel text boundingBox HR2).
Qed.

End FillFacts.

(** A caller that sets a fill image and one that does not. *)
Lemma fill_image_noninterference_witness :
  exists w1 w2,
    performAll Test.Image unit unit string Test.Bounds Test.NewRGBA
               Test.NewUniform Test.Draw Test.os_Open Test.png_Decode
               Test.jpeg_Decode Test.ioutil_ReadFile Test.freetype_ParseFont
               Test.ToLower
               [CallSetSrc 0%nat; CallSetFont (Some monoFont);
                CallSetMaxFontSize 40; CallSetFontImage 0%nat]
               Test.world0 = Returns w1
    /\ performAll Test.Image unit unit string Test.Bounds Test.NewRGBA
                  Test.NewUniform Test.Draw Test.os_Open Test.png_Decode
                  Test.jpeg_Decode Test.ioutil_ReadFile Test.freetype_ParseFont
                  Test.ToLower
                  [CallSetSrc 0%nat; CallSetFont (Some monoFont);
                   CallSetMaxFontSize 40]
                  Test.world0 = Returns w2
    /\ observed Test.Image string
         (WriteText Test.Image unit string Test.Bounds Test.NewRGBA Test.Draw
                    Test.DrawString 1 "ab cd" (mkRectangle 0 0 1000 50) w1)
       = observed Test.Image string
           (WriteText Test.Image unit string Test.Bounds Test.NewRGBA Test.Draw
                      Test.DrawString 1 "ab cd" (mkRectangle 0 0 1000 50) w2).
Proof.
  do 2 eexists. split; [reflexivity|]. split; [reflexivity|].
  apply (fill_image_noninterference Test.Image unit unit string Test.Bounds
           Test.NewRGBA Test.NewUniform Test.Draw Test.os_Open Test.png_Decode
           Test.jpeg_Decode Test.ioutil_ReadFile Test.freetype_ParseFont
           Test.ToLower Test.DrawString
           (dom (heap Test.Image Test.world0)) (heap Test.Image Test.world0)
           [CallSetSrc 0%nat; CallSetFont (Some monoFont);
            CallSetMaxFontSize 40; CallSetFontImage 0%nat]
           [CallSetSrc 0%nat; CallSetFont (Some monoFont);
            CallSetMaxFontSize 40]).
  - reflexivity.
  - repeat constructor; intros l [= <-]; apply elem_of_dom; eexists; reflexivity.
  - repeat constructor; intros l [= <-]; apply elem_of_dom; eexists; reflexivity.
  - reflexivity.
  - reflexivity.
  - reflexivity.
Defined.

(** * Further properties of the code *)

(** ** Splitting and joining *)

Lemma Split_separator s1 s2 sep :
  Strings.Split (String.append s1 (String sep s2)) sep
  = Strings.Split s1 sep ++ Strings.Split s2 sep.
Proof.
  induction s1 as [|ch rest IH].
  - change (String.append EmptyString (String sep s2)) with (String sep s2).
    cbn [Strings.Split]. now rewrite Ascii.eqb_refl.
  - change (String.append (String ch rest) (String sep s2))
      with (String ch (String.append rest (String sep s2))).
    cbn [Strings.Split]. rewrite IH. destruct (Ascii.eqb ch sep); [reflexivity|].
    pose proof (Split_nonempty rest sep) as Hne.
    destruct (Strings.Split rest sep) as [|w ws]; [contradiction|reflexivity].
Qed.

Lemma Join_Split s sep :
  Strings.Join (Strings.Split s sep) (String sep EmptyString) = s.
Proof.
  induction s as [|ch rest IH]; [reflexivity|].
  cbn [Strings.Split].
  pose proof (Split_nonempty rest sep) as Hne.
  destruct (Ascii.eqb_spec ch sep) as [->|Hch].
  - destruct (Strings.Split rest sep) as [|w ws] eqn:E; [contradiction|].
    change (Strings.Join (EmptyString :: w :: ws) (String sep EmptyString))
      with (String sep (Strings.Join (w :: ws) (String sep EmptyString))).
    now rewrite IH.
  - destruct (Strings.Split rest sep) as [|w ws] eqn:E; [contradiction|].
    destruct ws as [|w' ws'].
    + cbn [Strings.Join] in *. now rewrite IH.
    + change (Strings.Join (String ch w :: w' :: ws') (String sep EmptyString))
        with (String ch (Strings.Join (w :: w' :: ws') (String sep EmptyString))).
      now rewrite IH.
Qed.

(** ** More on the wrapping phase *)

Section WrapMore.

Variable font : Font.
Variable boundingBox : Rectangle.
Variable fontSize : Z.

#[local] Abbreviation wrapW := (wrapWords font boundingBox fontSize).
#[local] Abbreviation wrapH := (wrapHardLines font boundingBox fontSize).
#[local] Abbreviation wrapT := (wrapText font boundingBox fontSize).

(** The lines already closed are left alone. *)
Lemma wrapWords_prefix words :
  forall lines currLine,
    wrapW words lines currLine = lines ++ wrapW words [] currLine.
Proof.
  induction words as [|word rest IH]; intros lines currLine; cbn [wrapWords].
  - reflexivity.
  - destruct (_ <? _).
    + rewrite (IH (lines ++ [currLine])), (IH ([] ++ [currLine])).
      now rewrite <- app_assoc.
    + apply IH.
Qed.

Lemma wrapHardLines_prefix hardLines :
  forall lines, wrapH hardLines lines = lines ++ wrapH hardLines [].
Proof.
  induction hardLines as [|hardLine rest IH]; intros lines; cbn [wrapHardLines].
  - now rewrite app_nil_r.
  - rewrite IH, wrapWords_prefix.
    rewrite (IH (wrapW (Strings.Split hardLine space) [] newLine)).
    now rewrite app_assoc.
Qed.

Lemma wrapHardLines_app l1 l2 :
  forall lines, wrapH (l1 ++ l2) lines = wrapH l2 (wrapH l1 lines).
Proof.
  induction l1 as [|h r IH]; intros lines; cbn [wrapHardLines app].
  - reflexivity.
  - apply IH.
Qed.

(** X1 (forced breaks).  A newline splits the layout: the lines of a
    text are the lines of the part before the newline followed by the
    lines of the part after it, whatever the widths. *)
Theorem wrapText_newline s1 s2 :
  wrapT (String.append s1 (String newline s2)) = wrapT s1 ++ wrapT s2.
Proof.
  unfold wrapText. rewrite Split_separator, wrapHardLines_app.
  apply wrapHardLines_prefix.
Qed.

Lemma wrapWords_words words :
  forall lines currLine,
    concat (map Words (wrapW words lines currLine))
    = concat (map Words lines) ++ Words currLine ++ words.
Proof.
  induction words as [|word rest IH]; intros lines currLine; cbn [wrapWords].
  - rewrite map_app, concat_app. cbn. now rewrite !app_nil_r.
  - destruct (_ <? _); rewrite IH.
    + rewrite map_app, concat_app. cbn. now rewrite app_nil_r, <- app_assoc.
    + cbn [addWord Words]. now rewrite <- !app_assoc.
Qed.

Lemma wrapHardLines_words hardLines :
  forall lines,
    concat (map Words (wrapH hardLines lines))
    = concat (map Words lines)
      ++ concat (map (fun hardLine => Strings.Split hardLine space) hardLines).
Proof.
  induction hardLines as [|hardLine rest IH]; intros lines; cbn [wrapHardLines].
  - cbn. now rewrite app_nil_r.
  - rewrite IH, wrapWords_words. cbn. now rewrite <- app_assoc.
Qed.

(** X2 (no word lost).  The words of the lines, in order, are the words of
    the text: those of its hard lines, split at the spaces. *)
Theorem wrapText_words text :
  concat (map Words (wrapT text))
  = concat (map (fun hardLine => Strings.Split hardLine space)
                (Strings.Split text newline)).
Proof. unfold wrapText. now rewrite wrapHardLines_words. Qed.

(** X3 (round trip).  For a text without newline, joining the words of
    all its lines with single spaces, as [drawLines] joins those of one
    line, gives the text back. *)
Theorem joined_lines_are_the_text text :
  absent newline text ->
  Strings.Join (concat (map Words (wrapT text))) (String space EmptyString) = text.
Proof.
  intros Hnl. rewrite wrapText_words, (Split_absent _ _ Hnl).
  cbn [map concat]. rewrite app_nil_r. apply Join_Split.
Qed.

End WrapMore.

Lemma joined_lines_are_the_text_witness :
  Strings.Join
    (concat (map Words (wrapText monoFont (mkRectangle 0 0 13 50) 2 "ab cd ef")))
    (String space EmptyString)
  = "ab cd ef"%string.
Proof.
  apply (joined_lines_are_the_text monoFont (mkRectangle 0 0 13 50) 2 "ab cd ef").
  vm_compute. repeat split; discriminate.
Defined.

(** ** The total height in closed form *)

Section HeightFacts.

Variable font : Font.
Variable lineHeight : float.
Variable boundingBox : Rectangle.
Variable fontSize : Z.

#[local] Abbreviation pad := (linePad lineHeight fontSize).

Lemma placeRest_total lines :
  forall prevY totalHeight,
    Int32.in_range totalHeight ->
    snd (placeRest lineHeight boundingBox fontSize prevY lines totalHeight)
    = Int32.wrap (totalHeight + Z.of_nat (length lines) * (fontSize + pad))
    /\ length (fst (placeRest lineHeight boundingBox fontSize prevY lines totalHeight))
       = length lines.
Proof.
  induction lines as [|line rest IH]; intros prevY totalHeight Ht.
  - cbn [placeRest fst snd length]. split; [|reflexivity].
    now rewrite Z.mul_0_l, Z.add_0_r, Int32Facts.wrap_small.
  - cbn [placeRest].
    specialize (IH (YPos (placeNext lineHeight boundingBox fontSize prevY line))
                   (Int32.add totalHeight
                      (BaseToBaseHeight
                         (placeNext lineHeight boundingBox fontSize prevY line)))
                   (Int32Facts.add_in_range _ _)).
    destruct (placeRest lineHeight boundingBox fontSize _ rest _) as [rest' total].
    cbn [fst snd length] in *. destruct IH as [-> ->]. split; [|reflexivity].
    cbn [placeNext BaseToBaseHeight].
    rewrite Nat2Z.inj_succ, Z.mul_succ_l.
    generalize (Z.of_nat (length rest) * (fontSize + pad)). intros q.
    generalize pad. intros p. int32_congruence.
Qed.

(** X4 (total height).  The total height of a layout is, in [int32]
    arithmetic, the number of its lines times the sum of the font size and
    the line padding; the positioning phase keeps the number of lines. *)
Theorem layout_height text :
  snd (layout font lineHeight boundingBox fontSize text)
  = Int32.wrap (Z.of_nat (length (wrapText font boundingBox fontSize text))
                * (fontSize + pad))
  /\ length (fst (layout font lineHeight boundingBox fontSize text))
     = length (wrapText font boundingBox fontSize text).
Proof.
  unfold layout.
  pose proof (wrapText_nonempty font boundingBox fontSize text) as Hne.
  destruct (wrapText font boundingBox fontSize text) as [|line rest];
    [contradiction|].
  cbn [placeLines].
  pose proof (placeRest_total rest (YPos (placeFirst boundingBox fontSize line))
                (Int32.add 0 (BaseToBaseHeight (placeFirst boundingBox fontSize line)))
                (Int32Facts.add_in_range _ _)) as H.
  destruct (placeRest lineHeight boundingBox fontSize _ rest _) as [rest' total].
  cbn [fst snd length] in *. destruct H as [-> ->]. split; [|reflexivity].
  cbn [placeFirst BaseToBaseHeight].
  rewrite Nat2Z.inj_succ, Z.mul_succ_l.
  generalize (Z.of_nat (length rest) * (fontSize + pad)). intros q.
  generalize pad. intros p. int32_congruence.
Qed.

End HeightFacts.

(** ** What the search returns *)

Section SearchResult.

Variable font : Font.
Variable lineHeight : float.
Variable maxFontSize : Z.
Variable text : string.
Variable boundingBox : Rectangle.

#[local] Abbreviation fitsR := (fitsAt font lineHeight text boundingBox).
#[local] Abbreviation linesR :=
  (fun size => fst (layout font lineHeight boundingBox size text)).
#[local] Abbreviation bodyR :=
  (calculateSize_body font lineHeight maxFontSize text boundingBox).
#[local] Abbreviation searchR :=
  (fun fuel => calculateSize font lineHeight maxFontSize fuel text boundingBox).

(** When the body returns, the lines are those laid out at the size probed;
    the size is the size probed, or the larger of the two of an adjacent
    pair. *)
Lemma body_return fontSize attempt lastFit ok lines size :
  bodyR fontSize attempt lastFit = Return ok lines size ->
  ok = true /\ lines = linesR fontSize
  /\ ((size = fontSize /\ fitsR fontSize = true
       /\ (Int32.add attempt 1 = 0 \/ fontSize = lastFit))
      \/ (size = larger lastFit fontSize /\ adjacent fontSize lastFit = true)).
Proof.
  rewrite body_cases.
  destruct (fitsR fontSize) eqn:Hfit;
    destruct (Z.eqb_spec (Int32.add attempt 1) 0); cbn [andb];
    destruct (Z.eqb_spec fontSize lastFit);
    destruct (adjacent fontSize lastFit) eqn:Hadj;
    try discriminate;
    intros [= <- <- <-]; (split; [reflexivity|]); (split; [reflexivity|]);
    solve [ left; split; [reflexivity|]; split; [reflexivity|]; auto
          | right; split; reflexivity ].
Qed.

(** An invariant of the arguments of the calls holds at the call that
    returns. *)
Section Invariant.

Variable Inv : Z -> Z -> Z -> Prop.
Variable Post : bool * list Line * Z -> Prop.

Hypothesis step :
  forall f a l f' a' l',
    Inv f a l -> bodyR f a l = Recurse f' a' l' -> Inv f' a' l'.
Hypothesis final :
  forall f a l ok lines size,
    Inv f a l -> bodyR f a l = Return ok lines size -> Post (ok, lines, size).

Lemma search_invariant :
  forall (n : nat) f a l r,
    Inv f a l -> searchR n f a l = Some r -> Post r.
Proof using step final.
  induction n as [|n IH]; intros f a l r HI Hs; [discriminate|].
  cbn [calculateSize] in Hs.
  destruct (bodyR f a l) as [ok lines size|f' a' l'] eqn:Hb.
  - injection Hs as <-. exact (final f a l ok lines size HI Hb).
  - exact (IH f' a' l' r (step f a l f' a' l' HI Hb) Hs).
Qed.

End Invariant.

Hypothesis max_range : 1 <= maxFontSize < 2 ^ 30.

Lemma adjacent_above f l :
  0 <= l <= f -> f <= maxFontSize -> adjacent f l = true -> f = l + 1.
Proof using max_range.
  intros Hl Hf Hadj. unfold adjacent in Hadj.
  assert (2 ^ 30 = 1073741824) as E30 by reflexivity.
  rewrite Int32Facts.sub_small in Hadj
    by (unfold Int32.in_range, Int32.min_int, Int32.max_int; lia).
  apply Z.eqb_eq in Hadj. lia.
Qed.

(** X5 (the result of the search).  For a maximum from 1 to [2^30 - 1],
    whatever the search returns has its flag set, a size from 1 to the
    maximum, and the lines of the layout at the size returned. *)
Theorem search_result fuel ok lines size :
  findSize font lineHeight maxFontSize fuel text boundingBox
  = Some (ok, lines, size) ->
  ok = true /\ 1 <= size <= maxFontSize
  /\ lines = fst (layout font lineHeight boundingBox size text).
Proof using max_range.
  unfold findSize.
  apply (search_invariant
           (fun f _ l => searchInv font lineHeight text boundingBox maxFontSize f l)
           (fun r => fst (fst r) = true /\ 1 <= snd r <= maxFontSize
                     /\ snd (fst r) = linesR (snd r))).
  - intros f a l f' a' l' HI Hb.
    exact (proj1 (searchInv_step font lineHeight maxFontSize text boundingBox
                    max_range f a l f' a' l' HI Hb)).
  - intros f a l ok' lines' size' (Hl & Hf & H1 & Heq) Hb.
    apply body_return in Hb
      as (-> & -> & [(-> & _ & _)|(-> & Hadj)]); cbn [fst snd].
    + split; [reflexivity|]. split; [lia|]. reflexivity.
    + apply (adjacent_above f l Hl Hf) in Hadj. subst f.
      unfold larger. destruct (Z.leb_spec (l + 1) l); [lia|].
      split; [reflexivity|]. split; [lia|]. reflexivity.
  - repeat split; lia.
Qed.

End SearchResult.

Lemma search_result_witness :
  findSize monoFont 0%float 40 20 "a" (mkRectangle 0 0 100 25)
  = Some (true, fst (layout monoFont 0%float (mkRectangle 0 0 100 25) 26 "a"), 26)
  /\ (true = true /\ 1 <= 26 <= 40
      /\ fst (layout monoFont 0%float (mkRectangle 0 0 100 25) 26 "a")
         = fst (layout monoFont 0%float (mkRectangle 0 0 100 25) 26 "a")).
Proof.
  split; [vm_compute; reflexivity|].
  apply (search_result monoFont 0%float 40 "a" (mkRectangle 0 0 100 25)
           ltac:(lia) 20 true _ 26).
  vm_compute. reflexivity.
Defined.

(** ** The search under a monotone fit *)

Section SearchMonotone.

Variable font : Font.
Variable lineHeight : float.
Variable maxFontSize : Z.
Variable text : string.
Variable boundingBox : Rectangle.
Variable F : Z.

Hypothesis max_range : 1 <= maxFontSize < 2 ^ 30.
Hypothesis F_nonneg : 0 <= F.
Hypothesis mono : fitsUpTo font lineHeight text boundingBox maxFontSize F.

Lemma monoPhi_start :
  F < maxFontSize -> monoPhi maxFontSize F maxFontSize 0 <= 960.
Proof using max_range F_nonneg.
  intros HF. unfold monoPhi. rewrite !Z.sub_0_r.
  assert (Z.log2_up maxFontSize <= 30) as Hup
      by (apply Z.log2_up_le_pow2; lia).
  assert (Z.log2 (F + 1) <= 30) as Hlog.
  { change 30 with (Z.log2 (2 ^ 30)). apply Z.log2_le_mono. lia. }
  pose proof (Z.log2_up_nonneg maxFontSize).
  pose proof (Z.log2_nonneg (F + 1)). nia.
Qed.

(** X6 (largest fit, up to one).  When, among the sizes from 1 to a maximum
    below [2^30], exactly those up to a threshold fit, the size the search
    returns is the largest size that fits (the maximum, or the threshold),
    or else the threshold plus one. *)
Theorem search_off_by_one fuel ok lines size :
  findSize font lineHeight maxFontSize fuel text boundingBox
  = Some (ok, lines, size) ->
  size = Z.min maxFontSize F \/ (F < maxFontSize /\ size = F + 1).
Proof using max_range F_nonneg mono.
  destruct (Z_lt_le_dec F maxFontSize) as [HF|HF].
  - unfold findSize.
    apply (search_invariant font lineHeight maxFontSize text boundingBox
             (fun f a l =>
                monoInv maxFontSize F f l /\ -1 <= a
                /\ a + monoPhi maxFontSize F f l
                   <= monoPhi maxFontSize F maxFontSize 0 - 1
                /\ (a = -1 -> f = maxFontSize))
             (fun r => snd r = Z.min maxFontSize F
                       \/ (F < maxFontSize /\ snd r = F + 1))).
    + intros f a l f' a' l' (HI & Ha & Hphi & _) Hb.
      pose proof (monoPhi_start HF) as H0.
      pose proof (monoPhi_nonneg maxFontSize F f l HI) as Hnn.
      destruct (monoInv_step font lineHeight maxFontSize text boundingBox
                  max_range F ltac:(lia) mono f a l f' a' l' HI Hb)
        as [HI' Hlt].
      apply body_recurse in Hb as (-> & _).
      rewrite Int32Facts.add_small
        by (unfold Int32.in_range, Int32.min_int, Int32.max_int; lia).
      split; [exact HI'|]. split; [lia|]. split; lia.
    + intros f a l ok' lines' size' (HI & Ha & Hphi & Hfirst) Hb.
      pose proof (monoPhi_start HF) as H0.
      pose proof (monoPhi_nonneg maxFontSize F f l HI) as Hnn.
      destruct HI as (Hl & Hlf & Hf & HJ).
      apply body_return in Hb
        as (_ & _ & [(-> & Hfit & [Hzero|Heq])|(-> & Hadj)]); cbn [snd].
      * rewrite Int32Facts.add_small in Hzero
          by (unfold Int32.in_range, Int32.min_int, Int32.max_int; lia).
        assert (f = maxFontSize) as -> by (apply Hfirst; lia).
        apply (mono maxFontSize ltac:(lia)) in Hfit. lia.
      * lia.
      * apply (adjacent_above maxFontSize max_range f l ltac:(lia) Hf) in Hadj.
        subst f. unfold larger. destruct (Z.leb_spec (l + 1) l); lia.
    + unfold monoInv. repeat split; lia.
  - destruct fuel as [|fuel]; [discriminate|].
    unfold findSize. cbn [calculateSize]. rewrite body_cases.
    assert (fitsAt font lineHeight text boundingBox maxFontSize = true) as ->
        by (apply (mono maxFontSize); lia).
    change (Int32.add (-1) 1 =? 0) with true. cbn [andb].
    intros [= _ _ <-]. left. lia.
Qed.

End SearchMonotone.

Lemma search_off_by_one_witness :
  findSize monoFont 0%float 40 20 "a" (mkRectangle 0 0 100 25)
  = Some (true, fst (layout monoFont 0%float (mkRectangle 0 0 100 25) 26 "a"), 26)
  /\ (26 = Z.min 40 25 \/ (25 < 40 /\ 26 = 25 + 1)).
Proof.
  split; [vm_compute; reflexivity|].
  apply (search_off_by_one monoFont 0%float 40 "a" (mkRectangle 0 0 100 25) 25
           ltac:(lia) ltac:(lia) fitsUpTo_example 20 true
           (fst (layout monoFont 0%float (mkRectangle 0 0 100 25) 26 "a")) 26).
  vm_compute. reflexivity.
Defined.

(** ** The search without a maximum *)

Section UnsetMaximum.

Variable font : Font.
Variable lineHeight : float.
Variable text : string.
Variable boundingBox : Rectangle.

Hypothesis pad_zero : linePad lineHeight 0 = 0.

Lemma layout_height_zero :
  snd (layout font lineHeight boundingBox 0 text) = 0.
Proof using pad_zero.
  rewrite (proj1 (layout_height font lineHeight boundingBox 0 text)).
  rewrite pad_zero, Z.mul_0_r. reflexivity.
Qed.

Lemma zero_probe_recurses attempt :
  Height boundingBox < 0 ->
  calculateSize_body font lineHeight 0 text boundingBox 0 attempt 0
  = Recurse 0 (Int32.add attempt 1) 0.
Proof using pad_zero.
  intros HH. rewrite body_cases. unfold fitsAt.
  rewrite layout_height_zero.
  destruct (Z.leb_spec 0 (Height boundingBox)); [lia|].
  rewrite Bool.andb_false_r. reflexivity.
Qed.

(** X7 (no maximum set).  With the maximum font size left at zero, as
    [NewContext] leaves it, and a line height whose padding at size zero is
    zero: in a box of nonnegative height the search returns size zero at
    its first probe, with the lines laid out at size zero; in a box of
    negative height it never returns. *)
Theorem unset_maximum :
  (0 <= Height boundingBox ->
   forall fuel,
     findSize font lineHeight 0 (S fuel) text boundingBox
     = Some (true, fst (layout font lineHeight boundingBox 0 text), 0))
  /\ (Height boundingBox < 0 ->
      forall fuel, findSize font lineHeight 0 fuel text boundingBox = None).
Proof using pad_zero.
  split; intros HH fuel; unfold findSize.
  - cbn [calculateSize]. rewrite body_cases. unfold fitsAt.
    rewrite layout_height_zero.
    destruct (Z.leb_spec 0 (Height boundingBox)); [|lia].
    reflexivity.
  - generalize (-1). induction fuel as [|fuel IH]; intros attempt;
      [reflexivity|].
    cbn [calculateSize]. rewrite (zero_probe_recurses attempt HH). apply IH.
Qed.

End UnsetMaximum.

Lemma unset_maximum_witness :
  linePad 0%float 0 = 0
  /\ 0 <= Height (mkRectangle 0 0 100 25)
  /\ findSize monoFont 0%float 0 1 "a b" (mkRectangle 0 0 100 25)
     = Some (true,
             fst (layout monoFont 0%float (mkRectangle 0 0 100 25) 0 "a b"), 0)
  /\ Height (mkRectangle 0 0 100 (-1)) < 0
  /\ findSize monoFont 0%float 0 1000 "a b" (mkRectangle 0 0 100 (-1)) = None.
Proof.
  split; [reflexivity|]. split; [cbn; lia|]. split.
  - apply (proj1 (unset_maximum monoFont 0%float "a b" (mkRectangle 0 0 100 25)
                    eq_refl)).
    cbn. lia.
  - split; [cbn; lia|].
    apply (proj2 (unset_maximum monoFont 0%float "a b" (mkRectangle 0 0 100 (-1))
                    eq_refl)).
    cbn. lia.
Defined.

(** ** The context and the store *)

Section StoreFacts.

Variables (Image ImgRect File ExtError : Type).
Variable Bounds : Image -> ImgRect.
Variable NewRGBA : ImgRect -> Image.
Variable NewUniform : Color -> Image.
Variable Draw : Image -> ImgRect -> Image -> Image.
Variable os_Open : string -> File + ExtError.
Variable png_Decode : File -> Image + ExtError.
Variable jpeg_Decode : File -> Image + ExtError.
Variable ioutil_ReadFile : string -> string + ExtError.
Variable freetype_ParseFont : string -> option Font * option ExtError.
Variable strings_ToLower : string -> string.
Variable DrawString :
  FreetypeContext Image ImgRect ->
  Image -> string -> Z * Z -> Image * option ExtError.

#[local] Abbreviation writeTextS :=
  (WriteText Image ImgRect ExtError Bounds NewRGBA Draw DrawString).
#[local] Abbreviation drawLinesS :=
  (drawLines Image ImgRect ExtError Bounds NewRGBA Draw DrawString).
#[local] Abbreviation setSrcS := (SetSrc Image ImgRect Bounds NewRGBA).
#[local] Abbreviation setSrcPathS :=
  (SetSrcPath Image ImgRect File ExtError Bounds NewRGBA os_Open png_Decode
              jpeg_Decode strings_ToLower).
#[local] Abbreviation setFontPathS :=
  (SetFontPath Image ExtError ioutil_ReadFile freetype_ParseFont).
#[local] Abbreviation setFontImageS := (SetFontImage Image ImgRect Bounds Draw).
#[local] Abbreviation performS :=
  (perform Image ImgRect File ExtError Bounds NewRGBA NewUniform Draw os_Open
           png_Decode jpeg_Decode ioutil_ReadFile freetype_ParseFont
           strings_ToLower).
#[local] Abbreviation performAllS :=
  (performAll Image ImgRect File ExtError Bounds NewRGBA NewUniform Draw os_Open
              png_Decode jpeg_Decode ioutil_ReadFile freetype_ParseFont
              strings_ToLower).

Lemma alloc_fresh (h : gmap loc Image) : alloc Image h ∉ dom h.
Proof. unfold alloc. apply is_fresh. Qed.

Lemma drawLines_frame lines boundingBox size (w w' : World Image) err l :
  drawLinesS lines boundingBox size w = Returns (w', (err, l)) ->
  ctx Image w' = ctx Image w
  /\ (l ∉ dom (heap Image w))
  /\ (l ∈ dom (heap Image w'))
  /\ forall l0, l0 <> l -> heap Image w' !! l0 = heap Image w !! l0.
Proof.
  unfold drawLines.
  destruct (src Image (ctx Image w)) as [s|]; [|discriminate].
  destruct (heap Image w !! s) as [srcImage|]; [|discriminate].
  destruct (drawLoop _ _ _ _ _ _ lines) as [canvas e].
  intros [= <- <- <-]. cbn [ctx heap].
  split; [reflexivity|]. split; [apply alloc_fresh|]. split.
  - apply elem_of_dom. rewrite lookup_insert_eq. eauto.
  - intros l0 Hne. now rewrite lookup_insert_ne.
Qed.

(** X8 (what [WriteText] leaves alone).  A [WriteText] that returns has
    not changed the context; the image it returns is a new one, at an
    address that held no image before; every image that existed before
    has its contents unchanged. *)
Theorem WriteText_frame fuel text boundingBox (w w' : World Image) err l :
  writeTextS fuel text boundingBox w = Returns (w', (err, l)) ->
  ctx Image w' = ctx Image w
  /\ (l ∉ dom (heap Image w))
  /\ (l ∈ dom (heap Image w'))
  /\ forall l0, l0 <> l -> heap Image w' !! l0 = heap Image w !! l0.
Proof using Type.
  unfold WriteText.
  destruct (font Image (ctx Image w)) as [f|]; [|discriminate].
  destruct (findSize f _ _ fuel text boundingBox) as [[[ok lines] size]|];
    [|discriminate].
  apply drawLines_frame.
Qed.

(** X9 ([WriteText] returns).  On a context with a font, a source image
    and a maximum font size from 1 to [2^30 - 1], [WriteText] returns, for
    every text and box: some depth of recursion suffices, and a larger
    bound on the depth gives the same result. *)
Theorem WriteText_returns text boundingBox (w : World Image) f s srcImage :
  font Image (ctx Image w) = Some f ->
  src Image (ctx Image w) = Some s ->
  heap Image w !! s = Some srcImage ->
  1 <= maxFontSize Image (ctx Image w) < 2 ^ 30 ->
  exists fuel w' err l,
    forall fuel', (fuel <= fuel')%nat ->
      writeTextS fuel' text boundingBox w = Returns (w', (err, l)).
Proof using Type.
  intros Hfont Hsrc Himg HM.
  set (M := maxFontSize Image (ctx Image w)) in *.
  set (lh := lineHeight Image (ctx Image w)).
  assert (searchInv f lh text boundingBox M M 0) as Hinv
      by (repeat split; lia).
  pose proof (Z.log2_up_nonneg M) as HK.
  destruct (search_bounded f lh M text boundingBox
              (searchInv f lh text boundingBox M) (searchPhi M)
              (searchPhi_nonneg f lh M text boundingBox)
              (searchInv_step f lh M text boundingBox HM)
              (Z.to_nat ((M + 1) * (Z.log2_up M + 1))) M (-1) 0 Hinv)
    as (n & [[ok lines] size] & _ & Hs & _).
  { unfold searchPhi. rewrite Z.sub_0_r. nia. }
  destruct (drawLoop Image ImgRect ExtError DrawString
              (imageContextOf Image ImgRect Bounds (ctx Image w)
                 (alloc Image (heap Image w)) size srcImage)
              (canvasOf Image ImgRect Bounds NewRGBA Draw srcImage) lines)
    as [canvas err] eqn:Hloop.
  exists n, (mkWorld Image (<[alloc Image (heap Image w) := canvas]> (heap Image w))
                     (ctx Image w)), err, (alloc Image (heap Image w)).
  intros fuel' Hle. unfold WriteText. rewrite Hfont.
  fold M lh. unfold findSize.
  rewrite (search_more_fuel f lh M text boundingBox n fuel' M (-1) 0 _ Hle Hs).
  unfold drawLines. rewrite Hsrc, Himg, Hloop. reflexivity.
Qed.

(** X10 (the outcomes of [SetSrcPath]).  [SetSrcPath] returns.  When it
    returns an error it has changed nothing.  It returns no error exactly
    when the file opens and the decoder of its extension ([png.Decode] for
    [.png], [jpeg.Decode] for [.jpg] and [.jpeg]) yields an image; it has
    then done what [SetSrc] does on that image, held at a new address. *)
Theorem SetSrcPath_outcomes path (w : World Image) :
  let extension := strings_ToLower (Filepath.Ext path) in
  let s := alloc Image (heap Image w) in
  exists w' e,
    setSrcPathS path w = Returns (w', e)
    /\ (e <> None -> w' = w)
    /\ (e = None ->
        exists imageRaw imageDecoded,
          os_Open path = inl imageRaw
          /\ (extension = ".png"%string
              /\ png_Decode imageRaw = inl imageDecoded
              \/ (extension = ".jpg"%string \/ extension = ".jpeg"%string)
                 /\ jpeg_Decode imageRaw = inl imageDecoded)
          /\ (s ∉ dom (heap Image w))
          /\ setSrcS s (mkWorld Image (<[s := imageDecoded]> (heap Image w))
                                (ctx Image w))
             = Returns w')
    /\ (forall imageRaw imageDecoded,
          os_Open path = inl imageRaw ->
          (extension = ".png"%string
           /\ png_Decode imageRaw = inl imageDecoded
           \/ (extension = ".jpg"%string \/ extension = ".jpeg"%string)
              /\ jpeg_Decode imageRaw = inl imageDecoded) ->
          e = None).
Proof using Type.
  intros extension s. unfold SetSrcPath. fold extension.
  destruct (os_Open path) as [imageRaw|err] eqn:Hopen.
  2:{ exists w, (Some (External err)). split; [reflexivity|].
      split; [reflexivity|]. split; discriminate. }
  clearbody extension.
  assert (forall (d : Image + ExtError),
             (forall img,
                 (extension = ".png"%string /\ png_Decode imageRaw = inl img
                  \/ (extension = ".jpg"%string \/ extension = ".jpeg"%string)
                     /\ jpeg_Decode imageRaw = inl img)
                 <-> d = inl img) ->
             exists w' e,
               match d with
               | inr err => Returns (w, Some (External err))
               | inl imageDecoded =>
                   Returns
                     (mkWorld Image
                        (<[alloc Image (<[s := imageDecoded]> (heap Image w))
                           := NewRGBA (Bounds imageDecoded)]>
                           (<[s := imageDecoded]> (heap Image w)))
                        (with_images Image (ctx Image w) (Some s)
                           (Some (alloc Image
                                    (<[s := imageDecoded]> (heap Image w))))),
                      None)
               end = Returns (w', e)
               /\ (e <> None -> w' = w)
               /\ (e = None ->
                   exists imageRaw' imageDecoded,
                     @inl File ExtError imageRaw = inl imageRaw'
                     /\ (extension = ".png"%string
                         /\ png_Decode imageRaw' = inl imageDecoded
                         \/ (extension = ".jpg"%string
                             \/ extension = ".jpeg"%string)
                            /\ jpeg_Decode imageRaw' = inl imageDecoded)
                     /\ (s ∉ dom (heap Image w))
                     /\ setSrcS s (mkWorld Image (<[s := imageDecoded]> (heap Image w))
                                           (ctx Image w))
                        = Returns w')
               /\ (forall imageRaw' imageDecoded,
                     @inl File ExtError imageRaw = inl imageRaw' ->
                     (extension = ".png"%string
                      /\ png_Decode imageRaw' = inl imageDecoded
                      \/ (extension = ".jpg"%string
                          \/ extension = ".jpeg"%string)
                         /\ jpeg_Decode imageRaw' = inl imageDecoded) ->
                     e = None)) as Hdecoded.
  { intros [imageDecoded|err] Hd.
    - eexists _, None. split; [reflexivity|]. split; [congruence|]. split.
      + intros _. exists imageRaw, imageDecoded. split; [reflexivity|].
        split; [now apply Hd|]. split; [apply alloc_fresh|].
        unfold SetSrc. cbn [heap ctx]. subst s. rewrite lookup_insert_eq.
        reflexivity.
      + reflexivity.
    - exists w, (Some (External err)). split; [reflexivity|].
      split; [reflexivity|]. split; [discriminate|].
      intros imageRaw' img [= <-] Hdec. apply Hd in Hdec. discriminate. }
  destruct (String.eqb_spec extension ".png") as [Epng|Npng].
  { apply Hdecoded. intros img. split.
    - intros [[_ H]|[[E|E] _]]; [exact H| |]; rewrite Epng in E; discriminate.
    - intros H. left. now split. }
  destruct (String.eqb_spec extension ".jpg") as [Ejpg|Njpg].
  { apply Hdecoded. intros img. split.
    - intros [[E _]|[_ H]]; [contradiction|exact H].
    - intros H. right. split; [now left|exact H]. }
  destruct (String.eqb_spec extension ".jpeg") as [Ejpeg|Njpeg]; cbn [orb].
  { apply Hdecoded. intros img. split.
    - intros [[E _]|[_ H]]; [contradiction|exact H].
    - intros H. right. split; [now right|exact H]. }
  exists w, (Some (UnsupportedError extension)). split; [reflexivity|].
  split; [reflexivity|]. split; [discriminate|].
  intros imageRaw' img _ [[E _]|[[E|E] _]]; contradiction.
Qed.

(** X11 (what [SetFontPath] touches).  [SetFontPath] returns and leaves
    the images and every setting but the font as they were; when the file
    cannot be read it changes nothing; when the file is read the font is
    replaced by the result of the parser, also when the parser fails. *)
Theorem SetFontPath_frame path (w : World Image) :
  exists w' e,
    setFontPathS path w = Returns (w', e)
    /\ heap Image w' = heap Image w
    /\ with_font Image (ctx Image w') (font Image (ctx Image w)) = ctx Image w
    /\ (forall err, ioutil_ReadFile path = inr err -> w' = w)
    /\ (forall fontRaw,
          ioutil_ReadFile path = inl fontRaw ->
          font Image (ctx Image w') = fst (freetype_ParseFont fontRaw)
          /\ e = option_map External (snd (freetype_ParseFont fontRaw))).
Proof using Type.
  unfold SetFontPath. destruct w as [h c]. destruct c. cbn [heap ctx].
  destruct (ioutil_ReadFile path) as [fontRaw|err].
  - destruct (freetype_ParseFont fontRaw) as [f perr] eqn:Hparse.
    eexists _, _. split; [reflexivity|]. cbn [heap ctx with_font
      src fontBackground font maxFontSize dpi lineHeight fontColor fontSize].
    split; [reflexivity|]. split; [reflexivity|]. split; [discriminate|].
    intros raw [= <-]. rewrite Hparse. split; reflexivity.
  - eexists _, _. split; [reflexivity|]. cbn [heap ctx with_font
      src fontBackground font maxFontSize dpi lineHeight fontColor fontSize].
    split; [reflexivity|]. split; [reflexivity|]. split; [reflexivity|].
    discriminate.
Qed.

Lemma perform_without_source k (w w' : World Image) :
  setsSource k = false ->
  src Image (ctx Image w) = None ->
  fontBackground Image (ctx Image w) = None ->
  performS k w = Returns w' ->
  src Image (ctx Image w') = None
  /\ fontBackground Image (ctx Image w') = None
  /\ heap Image w' = heap Image w.
Proof.
  intros Hk Hs Hf.
  destruct k; try discriminate Hk; cbn [perform].
  - unfold SetFontPath. destruct (ioutil_ReadFile path) as [fontRaw|err].
    + destruct (freetype_ParseFont fontRaw) as [f perr].
      cbn [exec_bind fst]. intros [= <-]. cbn [ctx heap with_font src fontBackground].
      repeat split; assumption.
    + cbn [exec_bind fst]. intros [= <-]. repeat split; assumption.
  - unfold SetFont. intros [= <-]. cbn [ctx heap with_font src fontBackground].
    repeat split; assumption.
  - unfold SetMaxFontSize. intros [= <-]. cbn [ctx heap src fontBackground].
    repeat split; assumption.
  - unfold SetDPI. intros [= <-]. cbn [ctx heap src fontBackground].
    repeat split; assumption.
  - unfold SetLineHeight. intros [= <-]. cbn [ctx heap src fontBackground].
    repeat split; assumption.
  - unfold SetFontColor. intros [= <-]. cbn [ctx heap src fontBackground].
    repeat split; assumption.
  - unfold SetFontImage. rewrite Hf. discriminate.
Qed.

Lemma performAll_without_source ks :
  forall (w w' : World Image),
    forallb (fun k => negb (setsSource k)) ks = true ->
    src Image (ctx Image w) = None ->
    fontBackground Image (ctx Image w) = None ->
    performAllS ks w = Returns w' ->
    src Image (ctx Image w') = None
    /\ fontBackground Image (ctx Image w') = None
    /\ heap Image w' = heap Image w.
Proof.
  induction ks as [|k rest IH]; intros w w' Hks Hs Hf.
  - cbn [performAll]. intros [= <-]. repeat split; assumption.
  - cbn [forallb] in Hks. apply andb_prop in Hks as [Hk Hrest].
    apply Bool.negb_true_iff in Hk.
    cbn [performAll]. destruct (performS k w) as [w1| |] eqn:Hp;
      cbn [exec_bind]; try discriminate.
    destruct (perform_without_source k w w1 Hk Hs Hf Hp) as (Hs1 & Hf1 & Hh1).
    intros Hall. destruct (IH w1 w' Hrest Hs1 Hf1 Hall) as (Hs' & Hf' & Hh').
    repeat split; try assumption. congruence.
Qed.

(** X12 (a source comes first).  On a context made by [NewContext] and
    configured by calls none of which is [SetSrc] or [SetSrcPath], no image
    has been allocated, [SetFontImage] panics, and [WriteText] does not
    return: it panics, unless its size search never ends. *)
Theorem source_required ks (h : gmap loc Image) (w : World Image) :
  forallb (fun k => negb (setsSource k)) ks = true ->
  performAllS ks (mkWorld Image h (NewContext Image)) = Returns w ->
  heap Image w = h
  /\ (forall backgroundImage, setFontImageS backgroundImage w = Panics)
  /\ (forall fuel text boundingBox,
        writeTextS fuel text boundingBox w = Panics
        \/ writeTextS fuel text boundingBox w = OutOfFuel).
Proof using Type.
  intros Hks Hall.
  destruct (performAll_without_source ks (mkWorld Image h (NewContext Image)) w
              Hks eq_refl eq_refl Hall)
    as (Hs & Hf & Hh).
  split; [exact Hh|]. split.
  - intros bg. unfold SetFontImage. now rewrite Hf.
  - intros fuel text boundingBox. unfold WriteText.
    destruct (font Image (ctx Image w)) as [f|]; [|now left].
    destruct (findSize f _ _ fuel text boundingBox) as [[[ok lines] size]|];
      [|now right].
    left. unfold drawLines. now rewrite Hs.
Qed.

End StoreFacts.

Lemma WriteText_frame_witness :
  exists w' l,
    WriteText Test.Image unit string Test.Bounds Test.NewRGBA Test.Draw
              Test.DrawString 20 "ab cd" (mkRectangle 0 0 1000 50) (Test.world1 40)
    = Returns (w', (None, l))
    /\ ctx Test.Image w' = ctx Test.Image (Test.world1 40)
    /\ (l ∉ dom (heap Test.Image (Test.world1 40)))
    /\ (l ∈ dom (heap Test.Image w'))
    /\ forall l0, l0 <> l ->
         heap Test.Image w' !! l0 = heap Test.Image (Test.world1 40) !! l0.
Proof.
  do 2 eexists. split; [reflexivity|].
  apply (WriteText_frame Test.Image unit string Test.Bounds Test.NewRGBA
           Test.Draw Test.DrawString 20 "ab cd" (mkRectangle 0 0 1000 50)
           (Test.world1 40) _ None _).
  reflexivity.
Defined.

Lemma WriteText_returns_witness :
  exists fuel w' err l,
    forall fuel', (fuel <= fuel')%nat ->
      WriteText Test.Image unit string Test.Bounds Test.NewRGBA Test.Draw
                Test.DrawString fuel' "ab cd" (mkRectangle 0 0 1000 50)
                (Test.world1 40)
      = Returns (w', (err, l)).
Proof.
  apply (WriteText_returns Test.Image unit string Test.Bounds Test.NewRGBA
           Test.Draw Test.DrawString "ab cd" (mkRectangle 0 0 1000 50)
           (Test.world1 40) monoFont 0%nat [("photo"%string, (0, 0))]).
  - reflexivity.
  - reflexivity.
  - reflexivity.
  - cbn. lia.
Defined.

Lemma source_required_witness :
  exists w,
    performAll Test.Image unit unit string Test.Bounds Test.NewRGBA
               Test.NewUniform Test.Draw Test.os_Open Test.png_Decode
               Test.jpeg_Decode Test.ioutil_ReadFile Test.freetype_ParseFont
               Test.ToLower
               [CallSetFontPath "font.ttf"; CallSetMaxFontSize 40;
                CallSetLineHeight 0%float]
               (mkWorld Test.Image (heap Test.Image Test.world0)
                        (NewContext Test.Image))
    = Returns w
    /\ heap Test.Image w = heap Test.Image Test.world0
    /\ (forall backgroundImage,
          SetFontImage Test.Image unit Test.Bounds Test.Draw backgroundImage w
          = Panics)
    /\ (forall fuel text boundingBox,
          WriteText Test.Image unit string Test.Bounds Test.NewRGBA Test.Draw
                    Test.DrawString fuel text boundingBox w = Panics
          \/ WriteText Test.Image unit string Test.Bounds Test.NewRGBA Test.Draw
                       Test.DrawString fuel text boundingBox w = OutOfFuel).
Proof.
  eexists. split; [reflexivity|].
  apply (source_required Test.Image unit unit string Test.Bounds Test.NewRGBA
           Test.NewUniform Test.Draw Test.os_Open Test.png_Decode
           Test.jpeg_Decode Test.ioutil_ReadFile Test.freetype_ParseFont
           Test.ToLower Test.DrawString
           [CallSetFontPath "font.ttf"; CallSetMaxFontSize 40;
            CallSetLineHeight 0%float]
           (heap Test.Image Test.world0)).
  - reflexivity.
  - reflexivity.
Defined.

(** ** The points passed to the rasterizer *)

(** X13 (fixed point).  For a line positioned within [-2^23, 2^23) on both
    axes, the point [drawLines] passes to [DrawString] is the position of
    the line times 256, that is, the position in 24.8 fixed point. *)
Theorem linePoint_fixed line :
  - 2 ^ 23 <= XPos line < 2 ^ 23 ->
  - 2 ^ 23 <= YPos line < 2 ^ 23 ->
  linePoint line = (256 * XPos line, 256 * YPos line).
Proof.
  intros HX HY. unfold linePoint.
  rewrite !Z.shiftl_mul_pow2 by lia.
  change (2 ^ 8) with 256. change (2 ^ 23) with 8388608 in *.
  rewrite !Int32Facts.wrap_small
    by (unfold Int32.in_range, Int32.min_int, Int32.max_int; lia).
  f_equal; lia.
Qed.

Lemma linePoint_fixed_witness :
  linePoint (mkLine ["a"%string] 3 (-7) 0 0) = (256 * 3, 256 * -7).
Proof.
  apply (linePoint_fixed (mkLine ["a"%string] 3 (-7) 0 0)); cbn; lia.
Defined.

(** ** The width of a word, by parts *)

Section WordParts.

Variable font : Font.
Variable fontSize : Z.

Lemma rawWidth_append a ca cb b :
  rawWidth font fontSize (String.append a (String ca (String cb b)))
  = rawWidth font fontSize (String.append a (String ca EmptyString))
    + Kerning font fontSize (Index font (rune ca)) (Index font (rune cb))
    + rawWidth font fontSize (String cb b).
Proof.
  induction a as [|ch rest IH].
  - simpl. lia.
  - change (String.append (String ch rest) (String ca (String cb b)))
      with (String ch (String.append rest (String ca (String cb b)))).
    change (String.append (String ch rest) (String ca EmptyString))
      with (String ch (String.append rest (String ca EmptyString))).
    cbn [rawWidth]. rewrite IH.
    destruct rest as [|c2 rest2]; simpl; lia.
Qed.

(** X14 (the width of a word, by parts).  The width of a word cut between
    two of its bytes is, in [int32] arithmetic, the width of the part
    before the cut, the kerning of the two bytes at the cut, and the width
    of the part after it. *)
Theorem wordWidth_append a ca cb b :
  wordWidth font (String.append a (String ca (String cb b))) fontSize
  = Int32.wrap
      (wordWidth font (String.append a (String ca EmptyString)) fontSize
       + Kerning font fontSize (Index font (rune ca)) (Index font (rune cb))
       + wordWidth font (String cb b) fontSize).
Proof.
  rewrite !wordWidth_raw, rawWidth_append.
  generalize (rawWidth font fontSize (String.append a (String ca EmptyString))).
  generalize (Kerning font fontSize (Index font (rune ca)) (Index font (rune cb))).
  generalize (rawWidth font fontSize (String cb b)).
  intros x y z. int32_congruence.
Qed.

End WordParts.
